(** * Tonatiuh++ : scene-graph glue, launcher and photon-export interface

    A shallow embedding of the sources
      - kernel/photons/PhotonsAbstract.{h,cpp}   (module [Photons]),
      - application/view/SunNode3D.{h,cpp} and SkyNode3D.{h,cpp}
                                                 (modules [Inventor], [Sun], [Sky]),
      - the installed launcher script            (module [Launcher]),
      - tests/soqt_smoketest/main.cpp             (module [SoQtSmoke]),
    and the properties of them that the specification relies on.

    Conventions.  A C++ pointer is an [option] of an address ([None] is
    [nullptr]); objects live in stores indexed by address, so that aliasing
    is visible.  A [double] or [float] is the real number it holds, and
    arithmetic on them is exact; the casts from [double] to [float] in
    [SunNode3D::update] round, and module [SunFloat] embeds [update] with
    them, where module [Sun] takes them as exact.  A [QString] is a
    [string], a [QStringList] a [list string]. *)

From Stdlib Require Import Reals Lra Ascii Machin.
From stdpp Require Import gmap strings list.

(** Addresses of heap objects. *)
Abbreviation addr := positive.

(* ===================================================================== *)
(** * kernel/photons/PhotonsAbstract *)
(* ===================================================================== *)

Module Photons.

(** [struct PhotonsSettings] is only forward-declared in the header; these are
    the members [PhotonsAbstract::setPhotonSettings] reads.  [parameters] is a
    Qt associative container walked from [cbegin()] to [cend()] with
    [it.key()] and [it.value()]: it is kept as the sequence of (key, value)
    pairs in the container's iteration order. *)
Record PhotonsSettings := {
  surfaces : list string;
  saveCoordinates : bool;
  saveCoordinatesGlobal : bool;
  saveSurfaceID : bool;
  saveSurfaceSide : bool;
  savePhotonsID : bool;
  parameters : list (string * string)
}.

(** The data members of [class PhotonsAbstract] (PhotonsAbstract.h 35-44). *)
Record PhotonsAbstract := {
  m_sceneModel : option addr;
  m_saveAllPhotonsData : bool;
  m_surfaces : list string;
  m_saveCoordinates : bool;
  m_saveCoordinatesGlobal : bool;
  m_saveSurfaceID : bool;
  m_saveSurfaceSide : bool;
  m_savePhotonsID : bool
}.

(** The default member initializers of the header (PhotonsAbstract.h 35-44);
    [m_surfaces] has none and is default-constructed, an empty list. *)
Definition default_member_initializers : PhotonsAbstract := {|
  m_sceneModel := None;
  m_saveAllPhotonsData := false;
  m_surfaces := [];
  m_saveCoordinates := false;
  m_saveCoordinatesGlobal := false;
  m_saveSurfaceID := false;
  m_saveSurfaceSide := false;
  m_savePhotonsID := false
|}.

(** [PhotonsAbstract::PhotonsAbstract()]: a member named in the constructor's
    initializer list takes the value given there, any other member its
    default member initializer. *)
Definition PhotonsAbstract_ctor : PhotonsAbstract :=
  let dflt := default_member_initializers in
  {| m_sceneModel := None;
     m_saveAllPhotonsData := false;
     m_surfaces := m_surfaces dflt;
     m_saveCoordinates := false;
     m_saveCoordinatesGlobal := true;
     m_saveSurfaceID := false;
     m_saveSurfaceSide := false;
     m_savePhotonsID := false |}.

(** [void setSceneModel(SceneTreeModel& sceneModel)] *)
Definition setSceneModel (sceneModel : addr) (b : PhotonsAbstract) : PhotonsAbstract :=
  {| m_sceneModel := Some sceneModel;
     m_saveAllPhotonsData := m_saveAllPhotonsData b;
     m_surfaces := m_surfaces b;
     m_saveCoordinates := m_saveCoordinates b;
     m_saveCoordinatesGlobal := m_saveCoordinatesGlobal b;
     m_saveSurfaceID := m_saveSurfaceID b;
     m_saveSurfaceSide := m_saveSurfaceSide b;
     m_savePhotonsID := m_savePhotonsID b |}.

(** The six assignments of [setPhotonSettings] (PhotonsAbstract.cpp 21-27). *)
Definition copy_settings (ps : PhotonsSettings) (b : PhotonsAbstract) : PhotonsAbstract :=
  {| m_sceneModel := m_sceneModel b;
     m_saveAllPhotonsData := m_saveAllPhotonsData b;
     m_surfaces := surfaces ps;
     m_saveCoordinates := saveCoordinates ps;
     m_saveCoordinatesGlobal := saveCoordinatesGlobal ps;
     m_saveSurfaceID := saveSurfaceID ps;
     m_saveSurfaceSide := saveSurfaceSide ps;
     m_savePhotonsID := savePhotonsID ps |}.

Section Virtuals.
(** [Photon.h] is not among the sources; [savePhotons] ignores its argument. *)
Context {Photon : Type}.

(** An object whose dynamic class derives from [PhotonsAbstract]: the base
    subobject and the members [D] the derived class adds. *)
Record Object (D : Type) := mkObject {
  base : PhotonsAbstract;
  derived : D
}.
Global Arguments mkObject {D} _ _.
Global Arguments base {D} _.
Global Arguments derived {D} _.

Definition with_base {D} (b : PhotonsAbstract) (o : Object D) : Object D :=
  mkObject b (derived o).

(** The virtual member functions, as the table a dynamic class provides. *)
Class PhotonsVirtuals (D : Type) := {
  startExport : Object D -> bool * Object D;
  savePhotons : list Photon -> Object D -> Object D;
  setPhotonPower : R -> Object D -> Object D;
  endExport : Object D -> Object D;
  setParameter : string -> string -> Object D -> Object D
}.

(** The bodies [PhotonsAbstract] itself gives them (PhotonsAbstract.h 21-30). *)
Definition PhotonsAbstract_startExport {D} (o : Object D) : bool * Object D :=
  (true, o).
Definition PhotonsAbstract_savePhotons {D} (photons : list Photon) (o : Object D) : Object D :=
  o.
Definition PhotonsAbstract_setPhotonPower {D} (p : R) (o : Object D) : Object D :=
  o.
Definition PhotonsAbstract_endExport {D} (o : Object D) : Object D :=
  o.
Definition PhotonsAbstract_setParameter {D} (name value : string) (o : Object D) : Object D :=
  o.

(** [static QStringList getParameterNames()] *)
Definition getParameterNames : list string := [].

(** The class [PhotonsAbstract] itself: nothing is overridden. *)
Definition PhotonsAbstract_vtable (D : Type) : PhotonsVirtuals D := {|
  startExport := PhotonsAbstract_startExport;
  savePhotons := PhotonsAbstract_savePhotons;
  setPhotonPower := PhotonsAbstract_setPhotonPower;
  endExport := PhotonsAbstract_endExport;
  setParameter := PhotonsAbstract_setParameter
|}.

(** A derived class that overrides [setParameter] alone, to append every
    call's arguments to a log it owns. *)
Definition Recorder_setParameter (name value : string)
    (o : Object (list (string * string))) : Object (list (string * string)) :=
  mkObject (base o) (derived o ++ [(name, value)])%list.

Definition Recorder_vtable : PhotonsVirtuals (list (string * string)) := {|
  startExport := PhotonsAbstract_startExport;
  savePhotons := PhotonsAbstract_savePhotons;
  setPhotonPower := PhotonsAbstract_setPhotonPower;
  endExport := PhotonsAbstract_endExport;
  setParameter := Recorder_setParameter
|}.

(** The loop of [setPhotonSettings] (PhotonsAbstract.cpp 29-30): [it] runs
    over the remaining pairs, each one a virtual call of [setParameter]. *)
Fixpoint setParameter_loop {D} (V : PhotonsVirtuals D)
    (it : list (string * string)) (o : Object D) : Object D :=
  match it with
  | [] => o
  | (key, value) :: it' => setParameter_loop V it' (setParameter key value o)
  end.

(** [void PhotonsAbstract::setPhotonSettings(PhotonsSettings* ps)] *)
Definition setPhotonSettings {D} (V : PhotonsVirtuals D)
    (ps : option PhotonsSettings) (o : Object D) : Object D :=
  match ps with
  | None => o
  | Some ps =>
      let o1 := with_base (copy_settings ps (base o)) o in
      setParameter_loop V (parameters ps) o1
  end.

End Virtuals.

Arguments PhotonsVirtuals Photon D : clear implicits.
Arguments PhotonsAbstract_vtable Photon D : clear implicits.
Arguments Recorder_vtable Photon : clear implicits.

End Photons.

(* ===================================================================== *)
(** * The parts of Coin3D (Open Inventor) the sources use *)
(* ===================================================================== *)

Module Inventor.

Local Open Scope R_scope.

(** [SbVec3f] *)
Record SbVec3f := mkVec3f { vx : R; vy : R; vz : R }.

(** [SbRotation]: the quaternion [quat[0..3]], vector part first. *)
Record SbRotation := mkRotation { q0 : R; q1 : R; q2 : R; q3 : R }.

(** [SbVec3f::length] *)
Definition SbVec3f_length (v : SbVec3f) : R :=
  sqrt (vx v * vx v + vy v * vy v + vz v * vz v).

(** [SbVec3f::normalize]: a vector of positive length is divided by it. *)
Definition SbVec3f_normalize (v : SbVec3f) : SbVec3f :=
  let len := SbVec3f_length v in
  if Rlt_dec 0 len then mkVec3f (vx v / len) (vy v / len) (vz v / len) else v.

(** The default value of a rotation field. *)
Definition SbRotation_identity : SbRotation := mkRotation 0 0 0 1.

(** [SbRotation(const SbVec3f& axis, float radians)] *)
Definition SbRotation_axis (axis : SbVec3f) (radians : R) : SbRotation :=
  let a := SbVec3f_normalize axis in
  let sineval := sin (radians / 2) in
  mkRotation (vx a * sineval) (vy a * sineval) (vz a * sineval) (cos (radians / 2)).

(** The norm of the quaternion, and [SbVec4f::normalize] applied to it. *)
Definition SbRotation_norm (r : SbRotation) : R :=
  sqrt (q0 r * q0 r + q1 r * q1 r + q2 r * q2 r + q3 r * q3 r).

Definition SbRotation_normalize (r : SbRotation) : SbRotation :=
  let len := SbRotation_norm r in
  if Rlt_dec 0 len then mkRotation (q0 r / len) (q1 r / len) (q2 r / len) (q3 r / len) else r.

(** [operator*(const SbRotation& q1, const SbRotation& q2)]: a copy of the
    left operand, [t], multiplied in place by the right one, [q]; the four
    products are those of [SbRotation::operator*=], whose result goes through
    [setValue(q0, q1, q2, q3)] and is normalized there. *)
Definition SbRotation_mul (t q : SbRotation) : SbRotation :=
  let '(tx, ty, tz, tw) := (q0 t, q1 t, q2 t, q3 t) in
  let '(qx, qy, qz, qw) := (q0 q, q1 q, q2 q, q3 q) in
  SbRotation_normalize
    (mkRotation (qw * tx + qx * tw + qy * tz - qz * ty)
                (qw * ty - qx * tz + qy * tw + qz * tx)
                (qw * tz + qx * ty - qy * tx + qz * tw)
                (qw * tw - qx * tx - qy * ty - qz * tz)).

(** [SbRotation::multVec]: the vector, as a row, times the matrix
    [SbMatrix::setRotate] builds from the quaternion. *)
Definition SbRotation_multVec (r : SbRotation) (src : SbVec3f) : SbVec3f :=
  let '(x, y, z, w) := (q0 r, q1 r, q2 r, q3 r) in
  let m00 := w * w + x * x - y * y - z * z in
  let m01 := 2 * x * y + 2 * w * z in
  let m02 := 2 * x * z - 2 * w * y in
  let m10 := 2 * x * y - 2 * w * z in
  let m11 := w * w - x * x + y * y - z * z in
  let m12 := 2 * y * z + 2 * w * x in
  let m20 := 2 * x * z + 2 * w * y in
  let m21 := 2 * y * z - 2 * w * x in
  let m22 := w * w - x * x - y * y + z * z in
  mkVec3f (vx src * m00 + vy src * m10 + vz src * m20)
          (vx src * m01 + vy src * m11 + vz src * m21)
          (vx src * m02 + vy src * m12 + vz src * m22).

(** ** The run-time type system ([SoType])

    A registered type is known by the name of its C++ class and records its
    parent type; [None] is the parent of a root type ([SoType::badType()]). *)
Abbreviation SoTypeRegistry := (gmap string (option string)).

(** [SoType::isDerivedFrom]: walk up the parents until the type is met or the
    chain ends.  The fuel bounds the walk by the number of registered types. *)
Fixpoint isDerivedFrom_walk (fuel : nat) (reg : SoTypeRegistry)
    (ty parent : string) : bool :=
  match fuel with
  | O => false
  | S fuel' =>
      if String.eqb ty parent then true
      else match reg !! ty with
           | Some (Some up) => isDerivedFrom_walk fuel' reg up parent
           | _ => false
           end
  end.

Definition isDerivedFrom (reg : SoTypeRegistry) (ty parent : string) : bool :=
  match reg !! ty with
  | Some _ => isDerivedFrom_walk (S (size reg)) reg ty parent
  | None => false
  end.

(** [SO_NODE_INIT_CLASS(_class_, _parentclass_, _parentname_)]: the class must
    not be initialized yet and its parent class must be (the macro's two
    assertions, [None] here); the class is then entered in the type system
    with the parent class's type as its parent. *)
Definition SO_NODE_INIT_CLASS (class parentclass parentname : string)
    (reg : SoTypeRegistry) : option SoTypeRegistry :=
  match reg !! class, reg !! parentclass with
  | None, Some _ => Some (<[class := Some parentclass]> reg)
  | _, _ => None
  end.

(** Coin's own registry, as far as the scene nodes of the sources need it. *)
Definition coin_registry : SoTypeRegistry :=
  {[ "SoNode" := None; "SoGroup" := Some "SoNode"; "SoSeparator" := Some "SoGroup" ]}.

End Inventor.

(* ===================================================================== *)
(** * application/view/SunNode3D *)
(* ===================================================================== *)

Module Sun.
Import Inventor.

Local Open Scope R_scope.

(** Modelled from the spec: [gcf::degree] ([libraries/math/gcf.h] is not among
    the sources) is the factor from degrees to radians, the angles of a
    [SunPosition] being in degrees. *)
Definition gcf_degree : R := PI / 180.

(** [SoSeparator]: the children, in order. *)
Record SoSeparator := { children : list addr }.

(** [SoTransform]: the two fields the sources write. *)
Record SoTransform := { translation : SbVec3f; rotation : SbRotation }.

Definition set_rotation (r : SbRotation) (t : SoTransform) : SoTransform :=
  {| translation := translation t; rotation := r |}.

(** [SunPosition] ([kernel/sun/SunPosition.h] is not among the sources): the
    two fields [update] reads, in degrees. *)
Record SunPosition := { azimuth : R; elevation : R }.

(** [class SunNode3D : public SoSeparator]: the base subobject and the two
    data members. *)
Record SunNode3D := {
  separator : SoSeparator;
  m_transform : option addr;
  m_sensor : option addr
}.

(** What a node pointer can point to. *)
Inductive SoNode :=
  | ASoTransform (t : SoTransform)
  | ASunPosition (sp : SunPosition)
  | ASunNode3D (n : SunNode3D)
  | ASoSeparator (s : SoSeparator).

(** [SoNodeSensor]: the callback's [data] argument and the attached node. *)
Record SoNodeSensor := { callback_data : option addr; attachedNode : option addr }.

(** The objects alive, by address. *)
Record Heap := { nodes : gmap addr SoNode; sensors : gmap addr SoNodeSensor }.

Definition set_nodes (ns : gmap addr SoNode) (h : Heap) : Heap :=
  {| nodes := ns; sensors := sensors h |}.

Definition set_sensors (ss : gmap addr SoNodeSensor) (h : Heap) : Heap :=
  {| nodes := nodes h; sensors := ss |}.

(** The [static_cast]s of the sources: reading an object through a pointer of
    a type it does not have is undefined, [None] here, and so is reading
    through a pointer to no object. *)
Definition load_SunNode3D (h : Heap) (p : addr) : option SunNode3D :=
  match nodes h !! p with Some (ASunNode3D n) => Some n | _ => None end.

Definition load_SunPosition (h : Heap) (p : addr) : option SunPosition :=
  match nodes h !! p with Some (ASunPosition sp) => Some sp | _ => None end.

Definition load_SoTransform (h : Heap) (p : addr) : option SoTransform :=
  match nodes h !! p with Some (ASoTransform t) => Some t | _ => None end.

(** The right-hand side of the assignment in [update] (SunNode3D.cpp 127-133),
    its two casts to [float] taken as exact; [SunFloat.sun_rotation] has
    them rounding. *)
Definition sun_rotation (sp : SunPosition) : SbRotation :=
  SbRotation_mul
    (SbRotation_axis (mkVec3f 1 0 0) ((90 + elevation sp) * gcf_degree))
    (SbRotation_axis (mkVec3f 0 0 1) (- azimuth sp * gcf_degree)).

(** [void SunNode3D::update(void* data, SoSensor* sensor)] (SunNode3D.cpp 116-134).
    The result is [None] when the call reads through a dangling or mistyped
    pointer. *)
Definition update (data : option addr) (h : Heap) : option Heap :=
  match data with
  | None => Some h
  | Some p =>
      node ← load_SunNode3D h p;
      match m_sensor node, m_transform node with
      | Some s, Some t =>
          sensor ← sensors h !! s;
          match attachedNode sensor with
          | None => Some h
          | Some a =>
              sp ← load_SunPosition h a;
              tr ← load_SoTransform h t;
              Some (set_nodes (<[t := ASoTransform (set_rotation (sun_rotation sp) tr)]> (nodes h)) h)
          end
      | _, _ => Some h
      end
  end.

(** [void SunNode3D::attach(SunPosition* sp)] (SunNode3D.cpp 52-63), called on
    the node at [this]. *)
Definition attach (this : addr) (sp : option addr) (h : Heap) : option Heap :=
  node ← load_SunNode3D h this;
  match m_sensor node with
  | None => Some h
  | Some s =>
      sensor ← sensors h !! s;
      let detached := {| callback_data := callback_data sensor; attachedNode := None |} in
      let h1 := set_sensors (<[s := detached]> (sensors h)) h in
      match sp with
      | None => Some h1
      | Some a =>
          let attached := {| callback_data := callback_data sensor; attachedNode := Some a |} in
          let h2 := set_sensors (<[s := attached]> (sensors h1)) h1 in
          update (Some this) h2
      end
  end.

(** [void SunNode3D::initClass()] (SunNode3D.cpp 26-29) *)
Definition initClass : SoTypeRegistry -> option SoTypeRegistry :=
  SO_NODE_INIT_CLASS "SunNode3D" "SoSeparator" "Separator".

(** [SoSeparator] as a base class: the conversion of a [SunNode3D*] to a
    [SoSeparator*]. *)
Definition as_SoSeparator (n : SunNode3D) : SoSeparator := separator n.

(** ** The rotations the specification names *)

(** The rotation about the x axis by [d] degrees, as a unit quaternion. *)
Definition rotation_about_x (d : R) : SbRotation :=
  mkRotation (sin (d * PI / 360)) 0 0 (cos (d * PI / 360)).

(** The rotation about the z axis by [d] degrees, as a unit quaternion. *)
Definition rotation_about_z (d : R) : SbRotation :=
  mkRotation 0 0 (sin (d * PI / 360)) (cos (d * PI / 360)).

(** [composed first second]: the rotation [first] followed by [second], the
    quaternion product [second * first]. *)
Definition composed (first second : SbRotation) : SbRotation :=
  let '(ax, ay, az, aw) := (q0 second, q1 second, q2 second, q3 second) in
  let '(bx, by', bz, bw) := (q0 first, q1 first, q2 first, q3 first) in
  mkRotation (aw * bx + ax * bw + ay * bz - az * by')
             (aw * by' - ax * bz + ay * bw + az * bx)
             (aw * bz + ax * by' - ay * bx + az * bw)
             (aw * bw - ax * bx - ay * by' - az * bz).

(** ** A small scene: a sun node at 1 with its transform at 2 and its sensor
    at 3, and a [SunPosition] at 4 with the sun on the horizon, due north. *)
Definition scene_unattached : Heap := {|
  nodes := {[ 1%positive := ASunNode3D {| separator := {| children := [2%positive] |};
                                          m_transform := Some 2%positive;
                                          m_sensor := Some 3%positive |};
              2%positive := ASoTransform {| translation := mkVec3f 0 0 0;
                                            rotation := SbRotation_identity |};
              4%positive := ASunPosition {| azimuth := 0; elevation := 0 |} ]};
  sensors := {[ 3%positive := {| callback_data := Some 1%positive; attachedNode := None |} ]}
|}.

Definition scene_attached : Heap :=
  set_sensors {[ 3%positive := {| callback_data := Some 1%positive;
                                  attachedNode := Some 4%positive |} ]} scene_unattached.

End Sun.

(* ===================================================================== *)
(** * application/view/SkyNode3D *)
(* ===================================================================== *)

Module Sky.
Import Inventor.

(** [class SkyNode3D : public SoSeparator]: the base subobject and the one
    data member. *)
Record SkyNode3D := {
  separator : Sun.SoSeparator;
  m_skyTransform : option addr
}.

(** [void SkyNode3D::initClass()] (SkyNode3D.cpp 28-31) *)
Definition initClass : SoTypeRegistry -> option SoTypeRegistry :=
  SO_NODE_INIT_CLASS "SkyNode3D" "SoSeparator" "Separator".

(** [SoSeparator* getRoot() { return this; }] *)
Definition getRoot (n : SkyNode3D) : Sun.SoSeparator := separator n.

End Sky.

(* ===================================================================== *)
(** * The launcher script of an installed tree *)
(* ===================================================================== *)

Module Launcher.

(** ** What the embedding covers

    The script is run as a program (by its name, or as the one argument of
    [bash]) on a system with GNU [bash] and [dirname].  The file system is
    known by the path names at which there is a directory the shell can
    enter; a symbolic link to a directory is such a path name, since [cd]
    and [pwd] work on names (logical mode).  How the script ends is the
    system call [execve] it makes, or the status it exits with; what becomes
    of the [execve] (there may be no such program) is not the script's. *)

(** ** Path names

    A directory is known by the list of its components below the root. *)
Abbreviation dir := (list string).

(** The directories that exist; the root always does. *)
Definition is_dir (dirs : gset dir) (d : dir) : bool :=
  bool_decide (d = [] ∨ d ∈ dirs).

(** A path name cut at its slashes: ["/a//b"] gives four pieces, the first
    and the third of them empty. *)
Fixpoint split_slash (s : string) : list string :=
  match s with
  | EmptyString => [EmptyString]
  | String c s' =>
      if Ascii.eqb c "/"%char then EmptyString :: split_slash s'
      else match split_slash s' with
           | [] => [String c EmptyString]
           | w :: ws => String c w :: ws
           end
  end.

Fixpoint slashed (d : dir) : string :=
  match d with
  | [] => EmptyString
  | c :: d' => "/" +:+ c +:+ slashed d'
  end.

(** The shell's working directory, as the name the shell has for it: bash
    keeps two slashes at the front of a name when it came with exactly two. *)
Record wd := { double_slash : bool; below_root : dir }.

(** What [pwd] prints. *)
Definition render (w : wd) : string :=
  (if double_slash w then "/" else EmptyString) +:+
  match below_root w with
  | [] => "/"
  | d => slashed d
  end.

Definition at_dir (d : dir) : wd := {| double_slash := false; below_root := d |}.

(** The parent directory: the root is its own parent. *)
Definition parent (d : dir) : dir := removelast d.

Definition starts_with (c : Ascii.ascii) (s : string) : bool :=
  match s with
  | String c' _ => Ascii.eqb c' c
  | EmptyString => false
  end.

Definition starts_with_slash (s : string) : bool := starts_with "/"%char s.

Definition ends_with (c : Ascii.ascii) (s : string) : bool :=
  match rev (String.list_ascii_of_string s) with
  | c' :: _ => Ascii.eqb c' c
  | [] => false
  end.

Fixpoint leading_slashes (s : string) : nat :=
  match s with
  | String c s' => if Ascii.eqb c "/"%char then S (leading_slashes s') else 0
  | EmptyString => 0
  end.

(** The walk of [cd] along the components of a path: an empty component or
    [.] is skipped, [..] drops the last component reached, which must name
    a directory, and any other component is gone into. *)
Fixpoint cd_walk (dirs : gset dir) (reached : dir) (comps : list string) : option dir :=
  match comps with
  | [] => Some reached
  | c :: rest =>
      if bool_decide (c = EmptyString ∨ c = ".") then cd_walk dirs reached rest
      else if bool_decide (c = "..") then
        if is_dir dirs reached then cd_walk dirs (removelast reached) rest else None
      else cd_walk dirs (reached ++ [c])%list rest
  end.

(** The change of directory itself: a path is walked from the root when it
    starts with a slash, and else from the working directory (so that the
    empty path stays there); the walk must end in a directory.  Exactly two
    slashes at the front of an absolute path are kept in the new name. *)
Definition chdir (dirs : gset dir) (cwd : wd) (path : string) : option wd :=
  let start :=
    if starts_with_slash path
    then {| double_slash := Nat.eqb (leading_slashes path) 2; below_root := [] |}
    else cwd in
  target ← cd_walk dirs (below_root start) (split_slash path);
  if is_dir dirs target
  then Some {| double_slash := double_slash start; below_root := target |}
  else None.

(** [CDPATH] cut at its colons. *)
Fixpoint split_colon (s : string) : list string :=
  match s with
  | EmptyString => [EmptyString]
  | String c s' =>
      if Ascii.eqb c ":"%char then EmptyString :: split_colon s'
      else match split_colon s' with
           | [] => [String c EmptyString]
           | w :: ws => String c w :: ws
           end
  end.

(** The operands [cd] looks up in [CDPATH]: those that do not start with a
    slash and whose first component is not [.] or [..]. *)
Definition searches_CDPATH (operand : string) : bool :=
  negb (starts_with_slash operand
        || String.eqb operand "." || String.eqb operand ".."
        || String.prefix "./" operand || String.prefix "../" operand).

Definition newline : Ascii.ascii := "010"%char.

(** The operand under an entry of [CDPATH]. *)
Definition under (entry operand : string) : string :=
  if ends_with "/"%char entry then entry +:+ operand else entry +:+ "/" +:+ operand.

(** The search: the first entry under which the operand names a directory
    wins; an empty entry stands for the working directory; the new
    directory is printed when the entry was not empty.  The result is the
    new working directory and what was printed. *)
Fixpoint cd_CDPATH (dirs : gset dir) (cwd : wd) (entries : list string) (operand : string) :
    option (wd * string) :=
  match entries with
  | [] => None
  | entry :: rest =>
      match entry with
      | EmptyString =>
          match chdir dirs cwd operand with
          | Some w => Some (w, EmptyString)
          | None => cd_CDPATH dirs cwd rest operand
          end
      | _ =>
          match chdir dirs cwd (under entry operand) with
          | Some w => Some (w, render w +:+ String newline EmptyString)
          | None => cd_CDPATH dirs cwd rest operand
          end
      end
  end.

(** [cd operand], as the script calls it: without options, and with an
    operand that is never [-].  [None] is a failed [cd] (status 1). *)
Definition cd (dirs : gset dir) (cwd : wd) (CDPATH : option string) (operand : string) :
    option (wd * string) :=
  let found :=
    match CDPATH with
    | Some cdpath =>
        if searches_CDPATH operand then cd_CDPATH dirs cwd (split_colon cdpath) operand
        else None
    | None => None
    end in
  match found with
  | Some r => Some r
  | None => w ← chdir dirs cwd operand; Some (w, EmptyString)
  end.

Definition is_newline (c : Ascii.ascii) : bool := Ascii.eqb c newline.
Definition is_slash (c : Ascii.ascii) : bool := Ascii.eqb c "/"%char.

Fixpoint drop_while (p : Ascii.ascii -> bool) (l : list Ascii.ascii) : list Ascii.ascii :=
  match l with
  | [] => []
  | c :: l' => if p c then drop_while p l' else l
  end.

(** A command substitution takes the text printed without the newlines at
    its end, all of them. *)
Definition strip_newlines (s : string) : string :=
  String.string_of_list_ascii
    (rev (drop_while is_newline (rev (String.list_ascii_of_string s)))).

(** The subshell [$(cd "operand" && pwd)]: its text and its status.  What
    [cd] prints comes before what [pwd] prints. *)
Definition subst_cd_pwd (dirs : gset dir) (cwd : wd) (CDPATH : option string)
    (operand : string) : string * Z :=
  match cd dirs cwd CDPATH operand with
  | Some (w, printed) =>
      (strip_newlines (printed +:+ render w +:+ String newline EmptyString), 0%Z)
  | None => (EmptyString, 1%Z)
  end.

(** What [dirname] prints for a name, working from the end of the name:
    trailing slashes go, then the last component, then the slashes before
    it; a name without a slash gives [.], and what is all slashes gives
    [/]. *)
Definition dirname (s : string) : string :=
  match s with
  | EmptyString => "."
  | _ =>
      match drop_while is_slash (rev (String.list_ascii_of_string s)) with
      | [] => "/"
      | r1 =>
          match drop_while (fun c => negb (is_slash c)) r1 with
          | [] => "."
          | r2 =>
              match drop_while is_slash r2 with
              | [] => "/"
              | r3 => String.string_of_list_ascii (rev r3)
              end
          end
      end
  end.

(** The script gives [dirname] its operand without [--] before it: an
    operand that starts with a dash, other than the dash alone, is read as
    options, and [dirname] prints nothing on its standard output, unless
    the operand asks for the help or the version text. *)
Definition reads_as_option (operand : string) : bool :=
  starts_with "-"%char operand && negb (String.eqb operand "-").

Definition asks_for_text (operand : string) : bool :=
  (Nat.leb 3 (String.length operand))
  && (String.prefix operand "--help" || String.prefix operand "--version").

(** [$(dirname "operand")]: nothing when the shell finds no [dirname]. *)
Definition subst_dirname (found : bool) (operand : string) : string :=
  if found then
    if reads_as_option operand then EmptyString
    else strip_newlines (dirname operand +:+ String newline EmptyString)
  else EmptyString.

(** ** The system and the shell *)

(** The system: its directories, and whether the shell finds a program
    under the name [dirname]. *)
Record System := {
  dirs : gset dir;
  dirname_found : bool
}.

Abbreviation variables := (gmap string string).

(** The shell when the script starts: the variables it got from its
    environment, its working directory, the path the script was started by
    ([BASH_SOURCE[0]]) and the positional parameters. *)
Record Shell := {
  vars : variables;
  cwd : wd;
  BASH_SOURCE0 : string;
  positional : list string
}.

(** [${name}]: an unset variable expands to nothing. *)
Definition expand (vs : variables) (name : string) : string :=
  default EmptyString (vs !! name).

(** The shell options bash takes from [SHELLOPTS] in its environment. *)
Definition shell_options (vs : variables) : list string :=
  match vs !! "SHELLOPTS" with
  | Some opts => split_colon opts
  | None => []
  end.

Definition option_on (name : string) (vs : variables) : bool :=
  bool_decide (name ∈ shell_options vs).

(** The options the embedding follows: the three that are on in every shell
    that runs a script, and [errexit] and [nounset]. *)
Definition described_options : list string :=
  ["braceexpand"; "hashall"; "interactive-comments"; "errexit"; "nounset"].

(** The sessions the embedding describes.  Left out are those in which bash
    reads commands or functions before the script ([BASH_ENV], functions in
    the environment), runs in another mode ([BASHOPTS], [BASH_COMPAT],
    [POSIXLY_CORRECT], any other option in [SHELLOPTS]), expands a tilde in
    [CDPATH], or in which [dirname] is asked for its help or version text. *)
Definition described (sh : Shell) : bool :=
  forallb (fun name => bool_decide (vars sh !! name = None))
          ["BASH_ENV"; "BASHOPTS"; "BASH_COMPAT"; "POSIXLY_CORRECT"]
  && forallb (fun kv => negb (String.prefix "BASH_FUNC_" kv.1)) (map_to_list (vars sh))
  && forallb (fun o => bool_decide (o ∈ described_options ∨ o = EmptyString))
             (shell_options (vars sh))
  && forallb (fun entry => negb (starts_with "~"%char entry))
             (split_colon (expand (vars sh) "CDPATH"))
  && negb (asks_for_text (BASH_SOURCE0 sh)).

(** How the script ends: with the system call [execve] on [path] with
    [argv], in an environment whose [LD_LIBRARY_PATH] is as given, or with
    [exit]. *)
Inductive Outcome :=
  | Execve (path : string) (argv : list string) (LD_LIBRARY_PATH : string)
  | Exit (status : Z).

(** The script, line by line (lines 5, 8, 11 and 14).  With [errexit] the
    shell exits after an assignment whose command substitution failed;
    with [nounset] it exits at line 11 when [LD_LIBRARY_PATH] is unset. *)
Definition script (sys : System) (sh : Shell) : Outcome :=
  let errexit := option_on "errexit" (vars sh) in
  let nounset := option_on "nounset" (vars sh) in
  let '(SCRIPT_DIR, status5) :=
    subst_cd_pwd (dirs sys) (cwd sh) (vars sh !! "CDPATH")
      (subst_dirname (dirname_found sys) (BASH_SOURCE0 sh)) in
  if errexit && negb (Z.eqb status5 0) then Exit status5 else
  let vs1 := <["SCRIPT_DIR" := SCRIPT_DIR]> (vars sh) in
  let '(INSTALL_ROOT, status8) :=
    subst_cd_pwd (dirs sys) (cwd sh) (vs1 !! "CDPATH") (expand vs1 "SCRIPT_DIR" +:+ "/..") in
  if errexit && negb (Z.eqb status8 0) then Exit status8 else
  let vs2 := <["INSTALL_ROOT" := INSTALL_ROOT]> vs1 in
  if nounset && bool_decide (vs2 !! "LD_LIBRARY_PATH" = None) then Exit 1 else
  let vs3 := <["LD_LIBRARY_PATH" :=
                 expand vs2 "INSTALL_ROOT" +:+ "/lib:" +:+ expand vs2 "LD_LIBRARY_PATH"]> vs2 in
  let binary := expand vs3 "INSTALL_ROOT" +:+ "/bin/TonatiuhXX" in
  Execve binary (binary :: positional sh) (expand vs3 "LD_LIBRARY_PATH").

(** The launcher in a session: [None] for a session the embedding does not
    describe. *)
Definition launcher (sys : System) (sh : Shell) : option Outcome :=
  if described sh then Some (script sys sh) else None.

(** ** Names *)








(** ** An installed tree: the script is [/opt/tonatiuh/bin/tonatiuh], started
    from [/home/user] with two arguments. *)
Definition installed : System := {|
  dirs := {[ ["opt"]; ["opt"; "tonatiuh"]; ["opt"; "tonatiuh"; "bin"];
             ["opt"; "tonatiuh"; "lib"]; ["home"]; ["home"; "user"] ]};
  dirname_found := true
|}.



(** A session without [LD_LIBRARY_PATH], the script found through a relative
    path. *)
Definition session_bare : Shell := {|
  vars := {[ "HOME" := "/home/user"; "SCRIPT_DIR" := "mine" ]};
  cwd := at_dir ["opt"; "tonatiuh"];
  BASH_SOURCE0 := "bin/tonatiuh";
  positional := []
|}.



End Launcher.

(* ===================================================================== *)
(** * tests/soqt_smoketest/main.cpp *)
(* ===================================================================== *)

Module SoQtSmoke.

(** The calls [main] makes into SoQt and Coin, each with the type of what it
    returns.  A widget pointer may be null; [new] returns an address. *)
Inductive Call : Type -> Type :=
  | SoQt_init (argc : nat) (argv : list string) (appname : option string) : Call (option addr)
  | SoDB_init : Call unit
  | SoInteraction_init : Call unit
  | new_SoQtExaminerViewer (parent : option addr) : Call addr
  | new_SoCube : Call addr
  | setSceneGraph (viewer : addr) (root : option addr) : Call unit
  | viewer_show (viewer : addr) : Call unit
  | SoQt_show (widget : option addr) : Call unit
  | SoQt_mainLoop : Call unit
  | delete_viewer (viewer : addr) : Call unit.

(** A program: it returns, or makes a call and goes on with the answer. *)
Inductive Prog (A : Type) : Type :=
  | Ret (a : A)
  | Do {X : Type} (c : Call X) (k : X -> Prog A).
Arguments Ret {A} a.
Arguments Do {A X} c k.

Notation "x <- c ;; k" := (Do c (fun x => k))
  (at level 100, c at next level, right associativity).
Notation "c ;;; k" := (Do c (fun _ => k))
  (at level 100, right associativity).

(** [int main(int argc, char** argv)] (main.cpp 7-29); [argv[0]] is null when
    the vector is empty. *)
Definition main (argv : list string) : Prog Z :=
  mainWin <- SoQt_init (length argv) argv (head argv) ;;
  SoDB_init ;;;
  SoInteraction_init ;;;
  viewer <- new_SoQtExaminerViewer mainWin ;;
  cube <- new_SoCube ;;
  setSceneGraph viewer (Some cube) ;;;
  viewer_show viewer ;;;
  SoQt_show mainWin ;;;
  SoQt_mainLoop ;;;
  delete_viewer viewer ;;;
  Ret 0%Z.

(** A call that was made. *)
Definition Event : Type := { X : Type & Call X }.
Definition event {X} (c : Call X) : Event := existT X c.

(** A call that was made, with what it answered; [None] for a call that did
    not come back. *)
Definition Answered : Type := { X : Type & (Call X * option X)%type }.
Definition answered {X} (c : Call X) (x : X) : Answered := existT X (c, Some x).
Definition pending {X} (c : Call X) : Answered := existT X (c, None).

(** The call of an answered call, and the same call before its answer. *)
Definition call_of (e : Answered) : Event := existT (projT1 e) (fst (projT2 e)).
Definition unanswered (e : Answered) : Answered := existT (projT1 e) (fst (projT2 e), None).

Section Run.
(** The toolkit: its state, and what a call answers in a state.  A call that
    does not come back (the main loop of a window nobody closes, an [exit]
    inside the library) answers [None]. *)
Context {World : Type}.
Variable toolkit : forall X, Call X -> World -> option (X * World).

(** Running a program against the toolkit: the calls made, in order, and the
    value returned if the program gets that far. *)
Fixpoint run {A} (p : Prog A) (w : World) : list Event * option A :=
  match p with
  | Ret a => ([], Some a)
  | Do c k =>
      match toolkit _ c w with
      | None => ([event c], None)
      | Some (x, w') => let '(evs, r) := run (k x) w' in (event c :: evs, r)
      end
  end.

(** The same run, keeping what the toolkit answered: every call with its
    answer, the call that did not come back last and without one. *)
Fixpoint trace {A} (p : Prog A) (w : World) : list Answered * option A :=
  match p with
  | Ret a => ([], Some a)
  | Do c k =>
      match toolkit _ c w with
      | None => ([pending c], None)
      | Some (x, w') => let '(evs, r) := trace (k x) w' in (answered c x :: evs, r)
      end
  end.
End Run.

(** The bootstrap of the specification: the calls, in order, for the main
    widget, the viewer and the cube the toolkit handed out. *)
Definition bootstrap (argv : list string) (mainWin : option addr) (viewer cube : addr) : list Event :=
  [ event (SoQt_init (length argv) argv (head argv));
    event SoDB_init;
    event SoInteraction_init;
    event (new_SoQtExaminerViewer mainWin);
    event new_SoCube;
    event (setSceneGraph viewer (Some cube));
    event (viewer_show viewer);
    event (SoQt_show mainWin);
    event SoQt_mainLoop;
    event (delete_viewer viewer) ].

(** The bootstrap with the toolkit's answers: [mainWin] is what [SoQt::init]
    returned, [viewer] and [cube] are what the two [new] returned, and the
    later calls are made on exactly these. *)
Definition bootstrap_answered (argv : list string) (mainWin : option addr)
    (viewer cube : addr) : list Answered :=
  [ answered (SoQt_init (length argv) argv (head argv)) mainWin;
    answered SoDB_init tt;
    answered SoInteraction_init tt;
    answered (new_SoQtExaminerViewer mainWin) viewer;
    answered new_SoCube cube;
    answered (setSceneGraph viewer (Some cube)) tt;
    answered (viewer_show viewer) tt;
    answered (SoQt_show mainWin) tt;
    answered SoQt_mainLoop tt;
    answered (delete_viewer viewer) tt ].

(** A toolkit in which every call comes back: addresses are handed out in
    order, and the main widget is the first of them. *)
Definition counting_toolkit (X : Type) (c : Call X) (next : addr) : option (X * addr) :=
  match c in Call X return option (X * addr) with
  | SoQt_init _ _ _ => Some (Some next, Pos.succ next)
  | new_SoQtExaminerViewer _ => Some (next, Pos.succ next)
  | new_SoCube => Some (next, Pos.succ next)
  | SoDB_init | SoInteraction_init | SoQt_mainLoop => Some (tt, next)
  | setSceneGraph _ _ | viewer_show _ | SoQt_show _ | delete_viewer _ => Some (tt, next)
  end.

(** A toolkit whose main loop never ends. *)
Definition looping_toolkit (X : Type) (c : Call X) (next : addr) : option (X * addr) :=
  match c in Call X return option (X * addr) with
  | SoQt_mainLoop => None
  | c' => counting_toolkit _ c' next
  end.

End SoQtSmoke.

(* ===================================================================== *)
(** * application/view/SunNode3D: construction *)
(* ===================================================================== *)

Module SunScene.
Import Inventor Sun.

Local Open Scope R_scope.

(** [SbVec2f] *)
Record SbVec2f := mkVec2f { ux : R; uy : R }.

(** The enumerators of [SoTexture2::Model] and of
    [SoTextureCoordinateBinding::Binding]. *)
Inductive TextureModel := MODULATE | DECAL | BLEND | REPLACE.
Inductive Binding := PER_VERTEX_INDEXED | PER_VERTEX.

(** The nodes [create] makes that [update] never reads, with the fields the
    sources write. *)
Inductive Shape :=
  | ASoTexture2 (filename : string) (model : TextureModel)
  | ASoTextureCoordinate2 (point : list SbVec2f)
  | ASoTextureCoordinateBinding (value : Binding)
  | ASoCoordinate3 (point : list SbVec3f)
  | ASoFaceSet (numVertices : list Z).

(** Everything alive: the store [update] works on, the other nodes, and the
    names given with [setName]. *)
Record World := {
  heap : Heap;
  shapes : gmap addr Shape;
  names : gmap addr string
}.

Definition with_heap (h : Heap) (w : World) : World :=
  {| heap := h; shapes := shapes w; names := names w |}.

(** The addresses in use. *)
Definition used (w : World) : gset addr :=
  dom (nodes (heap w)) ∪ dom (sensors (heap w)) ∪ dom (shapes w).

Section Allocation.
(** [operator new]: which address it hands out, given the addresses in use.
    A sound one never hands out an address in use. *)
Variable alloc : gset addr -> addr.

(** [new]: the object goes to the address handed out. *)
Definition new_node (n : SoNode) (w : World) : addr * World :=
  let a := alloc (used w) in
  (a, with_heap (set_nodes (<[a := n]> (nodes (heap w))) (heap w)) w).

Definition new_sensor (s : SoNodeSensor) (w : World) : addr * World :=
  let a := alloc (used w) in
  (a, with_heap (set_sensors (<[a := s]> (sensors (heap w))) (heap w)) w).

Definition new_shape (sh : Shape) (w : World) : addr * World :=
  let a := alloc (used w) in
  (a, {| heap := heap w; shapes := <[a := sh]> (shapes w); names := names w |}).

(** A [SoTransform] as its constructor leaves it. *)
Definition SoTransform_default : SoTransform :=
  {| translation := mkVec3f 0 0 0; rotation := SbRotation_identity |}.

(** [SoMField::set1Value(idx, value)]: the field grows to [idx + 1] values
    when it is shorter. *)
Definition set1Value {A} (filler : A) (idx : nat) (value : A) (field : list A) : list A :=
  if decide (idx < length field)%nat then <[idx := value]> field
  else field ++ replicate (idx - length field) filler ++ [value].

(** Writing a member of the sun node at [this]. *)
Definition store_SunNode3D (this : addr) (n : SunNode3D) (w : World) : World :=
  with_heap (set_nodes (<[this := ASunNode3D n]> (nodes (heap w))) (heap w)) w.

(** [SoGroup::addChild], on the sun node at [this]. *)
Definition addChild (this child : addr) (w : World) : option World :=
  node ← load_SunNode3D (heap w) this;
  Some (store_SunNode3D this
          {| separator := {| children := children (separator node) ++ [child] |};
             m_transform := m_transform node;
             m_sensor := m_sensor node |} w).

Definition set_m_transform (this : addr) (t : option addr) (w : World) : option World :=
  node ← load_SunNode3D (heap w) this;
  Some (store_SunNode3D this
          {| separator := separator node; m_transform := t; m_sensor := m_sensor node |} w).

Definition set_m_sensor (this : addr) (s : option addr) (w : World) : option World :=
  node ← load_SunNode3D (heap w) this;
  Some (store_SunNode3D this
          {| separator := separator node; m_transform := m_transform node; m_sensor := s |} w).

(** [SoBase::setName] *)
Definition setName (a : addr) (name : string) (w : World) : World :=
  {| heap := heap w; shapes := shapes w; names := <[a := name]> (names w) |}.

(** The fields of the five shape nodes, as [create] leaves them
    (SunNode3D.cpp 82-111); a multiple-value field starts from its default
    and gets its values one index at a time. *)
Definition sun_texture : Shape :=
  ASoTexture2 "resources:/images/sun.png" REPLACE.

Definition sun_texture_coordinates : Shape :=
  ASoTextureCoordinate2
    (set1Value (mkVec2f 0 0) 3 (mkVec2f 0 1)
       (set1Value (mkVec2f 0 0) 2 (mkVec2f 1 1)
          (set1Value (mkVec2f 0 0) 1 (mkVec2f 1 0)
             (set1Value (mkVec2f 0 0) 0 (mkVec2f 0 0) [])))).

Definition sun_texture_binding : Shape :=
  ASoTextureCoordinateBinding PER_VERTEX.

Definition sun_quad_half_side : R := 5 / 100.

Definition sun_quad_coordinates : Shape :=
  let s := sun_quad_half_side in
  ASoCoordinate3
    (set1Value (mkVec3f 0 0 0) 3 (mkVec3f (- s) s 0)
       (set1Value (mkVec3f 0 0 0) 2 (mkVec3f s s 0)
          (set1Value (mkVec3f 0 0 0) 1 (mkVec3f s (- s) 0)
             (set1Value (mkVec3f 0 0 0) 0 (mkVec3f (- s) (- s) 0) [mkVec3f 0 0 0])))).

Definition sun_quad_faces : Shape :=
  ASoFaceSet (set1Value (-1)%Z 0 4%Z [(-1)%Z]).

(** [new] of a node or a shape, followed by [addChild] on the sun node. *)
Definition add_new_node (this : addr) (n : SoNode) (w : World) : option (addr * World) :=
  let '(a, w1) := new_node n w in
  w2 ← addChild this a w1;
  Some (a, w2).

Definition add_new_shape (this : addr) (sh : Shape) (w : World) : option (addr * World) :=
  let '(a, w1) := new_shape sh w in
  w2 ← addChild this a w1;
  Some (a, w2).

(** [void SunNode3D::create()] (SunNode3D.cpp 69-112), on the node at [this]. *)
Definition create (this : addr) (w : World) : option World :=
  let '(t0, w) := new_node (ASoTransform SoTransform_default) w in
  w ← set_m_transform this (Some t0) w;
  let w := setName t0 "transformSun" w in
  w ← addChild this t0 w;
  '(_, w) ← add_new_node this
              (ASoTransform {| translation := mkVec3f 0 0 (-1);
                               rotation := SbRotation_identity |}) w;
  '(_, w) ← add_new_shape this sun_texture w;
  '(_, w) ← add_new_shape this sun_texture_coordinates w;
  '(_, w) ← add_new_shape this sun_texture_binding w;
  '(_, w) ← add_new_shape this sun_quad_coordinates w;
  '(_, w) ← add_new_shape this sun_quad_faces w;
  Some w.

(** [new SunNode3D]: the object with its members as the header initializes
    them, then the constructor's body (SunNode3D.cpp 35-41). *)
Definition new_SunNode3D (w : World) : option (addr * World) :=
  let '(this, w) := new_node (ASunNode3D {| separator := {| children := [] |};
                                            m_transform := None;
                                            m_sensor := None |}) w in
  w ← create this w;
  let '(s, w) := new_sensor {| callback_data := Some this; attachedNode := None |} w in
  w ← set_m_sensor this (Some s) w;
  Some (this, w).

End Allocation.

(** The allocator of the examples: the least address not in use. *)
Definition least_free (X : gset addr) : addr := fresh X.

(** [SoTransform* getTransform() const] *)
Definition getTransform (n : SunNode3D) : option addr := m_transform n.

(** The direction of the sun for an azimuth and an elevation in degrees, x to
    the east, y to the north, z to the zenith. *)
Definition sun_direction (sp : SunPosition) : SbVec3f :=
  let alpha := elevation sp * gcf_degree in
  let gamma := azimuth sp * gcf_degree in
  mkVec3f (sin gamma * cos alpha) (cos gamma * cos alpha) (sin alpha).

(** A world, member by member. *)
Definition mkWorld (N : gmap addr SoNode) (S : gmap addr SoNodeSensor)
    (Sh : gmap addr Shape) (Nm : gmap addr string) : World :=
  {| heap := {| nodes := N; sensors := S |}; shapes := Sh; names := Nm |}.

(** The sun node with one more child. *)
Definition kid (n : SunNode3D) (c : addr) : SunNode3D :=
  {| separator := {| children := children (separator n) ++ [c] |};
     m_transform := m_transform n; m_sensor := m_sensor n |}.

(** What [new SunNode3D] leaves of a world [w] when the nine objects it makes
    go to the addresses given: the node, its transform, the translation, the
    texture, the texture coordinates, their binding, the coordinates, the
    face set, and the sensor. *)
Definition constructed (w : World) (this t t2 tex tcs tbind coords face s : addr) : World := {|
  heap := {|
    nodes :=
      <[this := ASunNode3D {| separator := {| children := [t; t2; tex; tcs; tbind; coords; face] |};
                              m_transform := Some t;
                              m_sensor := Some s |}]>
        (<[t2 := ASoTransform {| translation := mkVec3f 0 0 (-1);
                                 rotation := SbRotation_identity |}]>
           (<[t := ASoTransform SoTransform_default]> (nodes (heap w))));
    sensors := <[s := {| callback_data := Some this; attachedNode := None |}]>
                 (sensors (heap w)) |};
  shapes :=
    <[face := sun_quad_faces]>
      (<[coords := sun_quad_coordinates]>
         (<[tbind := sun_texture_binding]>
            (<[tcs := sun_texture_coordinates]>
               (<[tex := sun_texture]> (shapes w)))));
  names := <[t := "transformSun"]> (names w)
|}.

(** ** Example stores *)

(** The small scene with a second [SunPosition], at 5: the sun due east,
    thirty degrees up. *)
Definition scene_two_suns : Heap :=
  set_nodes (<[5%positive := ASunPosition {| azimuth := 90; elevation := 30 |}]>
               (nodes scene_unattached)) scene_unattached.

(** A world that holds one [SunPosition], at 1. *)
Definition world_with_sun : World := {|
  heap := {| nodes := {[ 1%positive := ASunPosition {| azimuth := 90; elevation := 30 |} ]};
             sensors := ∅ |};
  shapes := ∅;
  names := ∅
|}.

End SunScene.

(* ===================================================================== *)
(** * kernel/photons/PhotonsAbstract: sequences of calls *)
(* ===================================================================== *)

Module PhotonsCalls.
Import Photons.

Section Calls.
Context {Photon : Type}.

(** A call of one of the member functions (PhotonsAbstract.h 21-30). *)
Inductive Call :=
  | CallStartExport
  | CallSavePhotons (photons : list Photon)
  | CallSetPhotonPower (p : R)
  | CallEndExport
  | CallSetSceneModel (sceneModel : addr)
  | CallSetPhotonSettings (ps : option PhotonsSettings)
  | CallSetParameter (name value : string).

(** The object after the call, the virtual ones going through the table of
    the object's class. *)
Definition call {D} (V : PhotonsVirtuals Photon D) (c : Call) (o : Object D) : Object D :=
  match c with
  | CallStartExport => (startExport o).2
  | CallSavePhotons photons => savePhotons photons o
  | CallSetPhotonPower p => setPhotonPower p o
  | CallEndExport => endExport o
  | CallSetSceneModel sceneModel => with_base (setSceneModel sceneModel (base o)) o
  | CallSetPhotonSettings ps => setPhotonSettings V ps o
  | CallSetParameter name value => setParameter name value o
  end.

(** The calls of a list, first to last. *)
Definition calls {D} (V : PhotonsVirtuals Photon D) (cs : list Call) (o : Object D) : Object D :=
  foldl (fun acc c => call V c acc) o cs.

(** The scene model and the settings the object was last given, if any. *)
Fixpoint last_scene_model (cs : list Call) (before : option addr) : option addr :=
  match cs with
  | [] => before
  | CallSetSceneModel a :: cs' => last_scene_model cs' (Some a)
  | _ :: cs' => last_scene_model cs' before
  end.

Fixpoint last_settings (cs : list Call) (before : option PhotonsSettings) :
    option PhotonsSettings :=
  match cs with
  | [] => before
  | CallSetPhotonSettings (Some ps) :: cs' => last_settings cs' (Some ps)
  | _ :: cs' => last_settings cs' before
  end.

End Calls.

Arguments Call Photon : clear implicits.

(** The arguments of the calls of [setParameter] a run of calls leads to, in
    order: a call of [setPhotonSettings] makes one for every pair of its
    settings. *)
Definition setParameter_calls {Photon : Type} (cs : list (Call Photon)) : list (string * string) :=
  flat_map (fun c => match c with
                     | CallSetPhotonSettings (Some ps) => parameters ps
                     | CallSetParameter name value => [(name, value)]
                     | _ => []
                     end) cs.

(** The members with another scene model. *)
Definition with_scene_model (m : option addr) (b : PhotonsAbstract) : PhotonsAbstract :=
  {| m_sceneModel := m;
     m_saveAllPhotonsData := m_saveAllPhotonsData b;
     m_surfaces := m_surfaces b;
     m_saveCoordinates := m_saveCoordinates b;
     m_saveCoordinatesGlobal := m_saveCoordinatesGlobal b;
     m_saveSurfaceID := m_saveSurfaceID b;
     m_saveSurfaceSide := m_saveSurfaceSide b;
     m_savePhotonsID := m_savePhotonsID b |}.

(** The members with the settings copied in, if there are any. *)
Definition with_settings (ps : option PhotonsSettings) (b : PhotonsAbstract) : PhotonsAbstract :=
  match ps with
  | Some ps => copy_settings ps b
  | None => b
  end.

(** Two settings for the examples. *)
Definition settings_local : PhotonsSettings := {|
  surfaces := ["//Node/Receiver"];
  saveCoordinates := true;
  saveCoordinatesGlobal := false;
  saveSurfaceID := true;
  saveSurfaceSide := false;
  savePhotonsID := false;
  parameters := [("ExportDirectory", "/tmp/out"); ("FileSize", "1000")]
|}.

Definition settings_global : PhotonsSettings := {|
  surfaces := [];
  saveCoordinates := true;
  saveCoordinatesGlobal := true;
  saveSurfaceID := false;
  saveSurfaceSide := true;
  savePhotonsID := true;
  parameters := []
|}.

End PhotonsCalls.

(* ===================================================================== *)
(** * tests/soqt_smoketest/main.cpp: reading a run *)
(* ===================================================================== *)

Module SoQtSmokeTrace.
Import SoQtSmoke.

(** Whether a call is the [delete] of a viewer. *)
Definition is_delete_viewer (e : Event) : bool :=
  match projT2 e with
  | delete_viewer _ => true
  | _ => false
  end.

End SoQtSmokeTrace.

(* ===================================================================== *)
(** * application/view/SkyNode3D: the scene it builds *)
(* ===================================================================== *)

Module SkyScene.
Import Inventor.

Local Open Scope R_scope.

(** [SbColor] *)
Record SbColor := mkColor { red : R; green : R; blue : R }.

(** The enumerators of [SoLightModel::Model], [SoText2::Justification] and
    [SoSeparator::CacheEnabled]. *)
Inductive LightModel := BASE_COLOR | PHONG.
Inductive Justification := LEFT | RIGHT | CENTER.
Inductive CacheEnabled := OFF | ON | AUTO.

(** The nodes of the sky, each with the fields the sources write; the
    subgraph of a [SoSeparator] is built afresh by the sources, so it is kept
    as a tree. *)
Inductive Node :=
  | SoTransform (translation : SbVec3f)
  | SoDepthBuffer (test write : bool)
  | SoLightModel (model : LightModel)
  | SoMaterial (diffuseColor ambientColor : SbColor) (transparency : R)
  | SoSphere (radius : R)
  | SoFont (name : string) (size : R)
  | SoText2 (text : string) (justification : Justification)
  | SoSeparator (renderCulling : CacheEnabled) (kids : list Node).

(** [constexpr float kSkyRadius = 500.0f] *)
Definition kSkyRadius : R := 500.

(** The ambient colour of a [SoMaterial] nobody has set. *)
Definition ambient_default : SbColor := mkColor (2 / 10) (2 / 10) (2 / 10).

(** [SoSeparator* SkyNode3D::makeSky()] (SkyNode3D.cpp 78-95) *)
Definition makeSky : Node :=
  let diffuse := mkColor (38 / 100) (46 / 100) (62 / 100) in
  SoSeparator OFF
    [ SoMaterial diffuse diffuse 0;
      SoSphere kSkyRadius ].

(** The lambda [addLabelAt] of [makeLabels] (SkyNode3D.cpp 122-136): the
    subgraph it adds. *)
Definition addLabelAt (x y : R) (text : string) : Node :=
  SoSeparator AUTO
    [ SoTransform (mkVec3f x y 0);
      SoText2 text CENTER ].

(** The distance of the labels from the origin, [r] in [makeLabels]. *)
Definition label_distance : R := 100.

(** [SoSeparator* SkyNode3D::makeLabels()] (SkyNode3D.cpp 101-144) *)
Definition makeLabels : Node :=
  let r := label_distance in
  SoSeparator AUTO
    [ SoFont "Arial:Bold" 20;
      SoMaterial (mkColor 1 1 1) ambient_default 0;
      addLabelAt 0 r "North";
      addLabelAt r 0 "East";
      addLabelAt 0 (- r) "South";
      addLabelAt (- r) 0 "West" ].

(** [SkyNode3D::SkyNode3D()] (SkyNode3D.cpp 37-60): the node, itself a
    [SoSeparator], with its five children; [m_skyTransform] is the first. *)
Definition SkyNode3D_ctor : Node :=
  SoSeparator AUTO
    [ SoTransform (mkVec3f 0 0 0);
      SoDepthBuffer false false;
      SoLightModel BASE_COLOR;
      makeSky;
      makeLabels ].

(** [void SkyNode3D::updateSkyCamera(SoPerspectiveCamera* camera)]: the
    camera is not looked at. *)
Definition updateSkyCamera (camera : option addr) (sky : Node) : Node := sky.

(** ** Rendering

    What a render traversal carries along: where the origin of the current
    coordinate system lies, the depth buffer settings and the light model. *)
Record State := {
  origin : SbVec3f;
  depth_test : bool;
  depth_write : bool;
  light_model : LightModel
}.

(** What gets drawn, with the state it is drawn in. *)
Inductive Drawn :=
  | DrawSphere (centre : SbVec3f) (radius : R) (st : State)
  | DrawText (position : SbVec3f) (text : string) (st : State).

Definition drawn_state (d : Drawn) : State :=
  match d with
  | DrawSphere _ _ st => st
  | DrawText _ _ st => st
  end.

Definition vadd (a b : SbVec3f) : SbVec3f :=
  mkVec3f (vx a + vx b) (vy a + vy b) (vz a + vz b).

Definition vscale (k : R) (a : SbVec3f) : SbVec3f :=
  mkVec3f (k * vx a) (k * vy a) (k * vz a).

(** The traversal: a transform moves the origin for what follows, a depth
    buffer or light model node sets the state for what follows, a shape is
    drawn at the origin, and a separator traverses its children in order
    and gives the state back as it got it. *)
Fixpoint traverse (n : Node) (st : State) {struct n} : State * list Drawn :=
  match n with
  | SoTransform t =>
      ({| origin := vadd (origin st) t; depth_test := depth_test st;
          depth_write := depth_write st; light_model := light_model st |}, [])
  | SoDepthBuffer test write =>
      ({| origin := origin st; depth_test := test;
          depth_write := write; light_model := light_model st |}, [])
  | SoLightModel model =>
      ({| origin := origin st; depth_test := depth_test st;
          depth_write := depth_write st; light_model := model |}, [])
  | SoMaterial _ _ _ => (st, [])
  | SoFont _ _ => (st, [])
  | SoSphere radius => (st, [DrawSphere (origin st) radius st])
  | SoText2 text _ => (st, [DrawText (origin st) text st])
  | SoSeparator _ kids =>
      (st,
       (fix children (ks : list Node) (s : State) {struct ks} : list Drawn :=
          match ks with
          | [] => []
          | k :: ks' => let '(s', d) := traverse k s in d ++ children ks' s'
          end) kids st)
  end.

(** The texts drawn, with their places. *)
Definition texts (ds : list Drawn) : list (SbVec3f * string) :=
  flat_map (fun d => match d with
                     | DrawText p t _ => [(p, t)]
                     | DrawSphere _ _ _ => []
                     end) ds.

(** The spheres drawn, with their centres and radii. *)
Definition spheres (ds : list Drawn) : list (SbVec3f * R) :=
  flat_map (fun d => match d with
                     | DrawSphere c r _ => [(c, r)]
                     | DrawText _ _ _ => []
                     end) ds.

(** The square of the distance between two points. *)
Definition distance2 (a b : SbVec3f) : R :=
  (vx a - vx b) * (vx a - vx b) + (vy a - vy b) * (vy a - vy b) +
  (vz a - vz b) * (vz a - vz b).

(** The four compass points, each with the azimuth of a [SunPosition] that
    lies in its direction, in degrees from north over east. *)
Definition compass_points : list (R * string) :=
  [ (0, "North"); (90, "East"); (180, "South"); (270, "West") ].

(** The state a scene is entered with when nothing has been set. *)
Definition initial_state : State :=
  {| origin := mkVec3f 0 0 0; depth_test := true; depth_write := true;
     light_model := PHONG |}.

End SkyScene.

(* ===================================================================== *)
(** * application/view/SunNode3D: [update] with its casts to [float] *)
(* ===================================================================== *)

Module SunFloat.
Import Inventor Sun.

Local Open Scope R_scope.

(** ** [float]

    A [float] is an IEEE 754 binary32 number, taken as the real number it
    holds: 24 bits of precision, exponents from -126 to 127. *)

(** Two to the power [e]. *)
Definition bpow (e : Z) : R := powerRZ 2 e.

(** [FLT_MAX], the largest [float]. *)
Definition FLT_MAX : R := bpow 128 - bpow 104.

(** The exponent of the binade of a real: the [e] with 2^e <= |x| < 2^(e+1),
    and -126 for what lies below 2^-126 (the subnormal numbers). *)
Definition binade (x : R) : Z := Z.max (-126) (Int_part (ln (Rabs x) / ln 2)).

(** The distance between two neighbouring [float]s around a real. *)
Definition ulp (x : R) : R := bpow (binade x - 23).

(** The integer nearest to a real, the even one of two that are as near. *)
Definition nearest_even (y : R) : Z :=
  let f := Int_part y in
  let d := y - IZR f in
  if Rlt_dec d (1 / 2) then f
  else if Rlt_dec (1 / 2) d then (f + 1)%Z
  else if Z.even f then f else (f + 1)%Z.

(** The [float] nearest to a real, ties to even. *)
Definition round_binary32 (x : R) : R := IZR (nearest_even (x / ulp x)) * ulp x.

(** [static_cast<float>(x)] for a [double] [x]: the nearest [float] when [x]
    lies in the range of [float]; outside of it the conversion is undefined,
    [None] here. *)
Definition to_float (x : R) : option R :=
  if Rle_dec (Rabs x) FLT_MAX then Some (round_binary32 x) else None.

(** ** [SunNode3D::update] *)

(** The right-hand side of the assignment in [update] (SunNode3D.cpp 127-133):
    the two angles are computed in [double] (exactly, here), each is cast to
    [float], and the two rotations are multiplied. *)
Definition sun_rotation (sp : SunPosition) : option SbRotation :=
  x_angle ← to_float ((90 + elevation sp) * gcf_degree);
  z_angle ← to_float (- azimuth sp * gcf_degree);
  Some (SbRotation_mul (SbRotation_axis (mkVec3f 1 0 0) x_angle)
                       (SbRotation_axis (mkVec3f 0 0 1) z_angle)).

(** [void SunNode3D::update(void* data, SoSensor* sensor)] (SunNode3D.cpp 116-134).
    The result is [None] when the call reads through a dangling or mistyped
    pointer, or casts a [double] no [float] is near. *)
Definition update (data : option addr) (h : Heap) : option Heap :=
  match data with
  | None => Some h
  | Some p =>
      node ← load_SunNode3D h p;
      match m_sensor node, m_transform node with
      | Some s, Some t =>
          sensor ← sensors h !! s;
          match attachedNode sensor with
          | None => Some h
          | Some a =>
              sp ← load_SunPosition h a;
              r ← sun_rotation sp;
              tr ← load_SoTransform h t;
              Some (set_nodes (<[t := ASoTransform (set_rotation r tr)]> (nodes h)) h)
          end
      | _, _ => Some h
      end
  end.

(** ** The rotations the specification names, by an angle in radians *)





End SunFloat.

(* ===================================================================== *)
(** * Properties: the photon-export interface *)
(* ===================================================================== *)

Section PhotonsProperties.
Import Photons.
Context {Photon : Type}.

Lemma setParameter_loop_foldl {D} (V : PhotonsVirtuals Photon D)
    (it : list (string * string)) (o : Object D) :
  setParameter_loop V it o = foldl (fun acc kv => setParameter kv.1 kv.2 acc) o it.
Proof.
  revert o. induction it as [|[key value] it IH]; intros o; simpl.
  - reflexivity.
  - apply IH.
Qed.

(** With the base class's [setParameter] the loop changes nothing. *)
Lemma setParameter_loop_base {D} (it : list (string * string)) (o : Object D) :
  setParameter_loop (PhotonsAbstract_vtable Photon D) it o = o.
Proof.
  induction it as [|[key value] it IH]; simpl; [reflexivity | exact IH].
Qed.

(** With the recording class the loop appends the pairs to the log, in the
    order it meets them, and leaves the base subobject alone. *)
Lemma setParameter_loop_recorder (it : list (string * string))
    (o : Object (list (string * string))) :
  setParameter_loop (Recorder_vtable Photon) it o = mkObject (base o) (derived o ++ it).
Proof.
  revert o. induction it as [|[key value] it IH]; intros o; simpl.
  - rewrite app_nil_r. destruct o; reflexivity.
  - rewrite IH. simpl. rewrite <- app_assoc. reflexivity.
Qed.

(** C4: the virtual member functions of [PhotonsAbstract] have trivial bodies.
    On every object whose class does not override them, [startExport] returns
    [true] and leaves the object as it was, [savePhotons], [setPhotonPower],
    [endExport] and [setParameter] leave the object as it was, and the static
    [getParameterNames] returns the empty list. *)
Theorem PhotonsAbstract_default_behaviour :
  forall (D : Type) (o : Object D) (photons : list Photon) (p : R) (name value : string),
    @startExport Photon D (PhotonsAbstract_vtable Photon D) o = (true, o) /\
    @savePhotons Photon D (PhotonsAbstract_vtable Photon D) photons o = o /\
    @setPhotonPower Photon D (PhotonsAbstract_vtable Photon D) p o = o /\
    @endExport Photon D (PhotonsAbstract_vtable Photon D) o = o /\
    @setParameter Photon D (PhotonsAbstract_vtable Photon D) name value o = o /\
    getParameterNames = [].
Proof.
  intros D o photons p name value.
  unfold PhotonsAbstract_vtable; simpl.
  unfold PhotonsAbstract_startExport, PhotonsAbstract_savePhotons,
    PhotonsAbstract_setPhotonPower, PhotonsAbstract_endExport,
    PhotonsAbstract_setParameter, getParameterNames.
  repeat split.
Qed.

(** C5: a freshly constructed [PhotonsAbstract] has [m_saveCoordinatesGlobal]
    true, although the member's default initializer in the header is false;
    the other five flags are false, [m_sceneModel] is null and [m_surfaces]
    is empty. *)
Theorem PhotonsAbstract_ctor_members :
  m_saveCoordinatesGlobal default_member_initializers = false /\
  m_saveCoordinatesGlobal PhotonsAbstract_ctor = true /\
  m_saveAllPhotonsData PhotonsAbstract_ctor = false /\
  m_saveCoordinates PhotonsAbstract_ctor = false /\
  m_saveSurfaceID PhotonsAbstract_ctor = false /\
  m_saveSurfaceSide PhotonsAbstract_ctor = false /\
  m_savePhotonsID PhotonsAbstract_ctor = false /\
  m_sceneModel PhotonsAbstract_ctor = None /\
  m_surfaces PhotonsAbstract_ctor = [].
Proof.
  unfold PhotonsAbstract_ctor, default_member_initializers; simpl.
  repeat split.
Qed.

(** C6: [setPhotonSettings] with a null pointer returns the object as it was.
    With settings [ps] it first copies [surfaces] and the five save flags into
    the object, touching neither [m_sceneModel] nor [m_saveAllPhotonsData],
    and then calls the virtual [setParameter] once for every pair of
    [ps->parameters], in iteration order: the result is the left fold of
    [setParameter] over the pairs, and a class that records the calls ends
    with exactly the pairs, in order, added to its log. *)
Theorem setPhotonSettings_copies_then_sets_parameters :
  forall (D : Type) (V : PhotonsVirtuals Photon D) (o : Object D)
         (r : Object (list (string * string))) (ps : PhotonsSettings),
    setPhotonSettings V None o = o /\
    setPhotonSettings V (Some ps) o =
      foldl (fun acc kv => setParameter kv.1 kv.2 acc)
            (with_base (copy_settings ps (base o)) o) (parameters ps) /\
    base (with_base (copy_settings ps (base o)) o) =
      {| m_sceneModel := m_sceneModel (base o);
         m_saveAllPhotonsData := m_saveAllPhotonsData (base o);
         m_surfaces := surfaces ps;
         m_saveCoordinates := saveCoordinates ps;
         m_saveCoordinatesGlobal := saveCoordinatesGlobal ps;
         m_saveSurfaceID := saveSurfaceID ps;
         m_saveSurfaceSide := saveSurfaceSide ps;
         m_savePhotonsID := savePhotonsID ps |} /\
    derived (setPhotonSettings (Recorder_vtable Photon) (Some ps) r) =
      (derived r ++ parameters ps)%list /\
    base (setPhotonSettings (Recorder_vtable Photon) (Some ps) r) =
      copy_settings ps (base r) /\
    setPhotonSettings (PhotonsAbstract_vtable Photon D) (Some ps) o =
      with_base (copy_settings ps (base o)) o.
Proof.
  intros D V o r ps. unfold setPhotonSettings.
  split; [reflexivity|].
  split; [apply setParameter_loop_foldl|].
  split; [reflexivity|].
  rewrite setParameter_loop_recorder, setParameter_loop_base.
  repeat split.
Qed.

End PhotonsProperties.

(* ===================================================================== *)
(** * Properties: the sun node *)
(* ===================================================================== *)

Section SunProperties.
Import Inventor Sun.
Local Open Scope R_scope.

(** The constructor from an axis and an angle, on the two axes [update] uses. *)
Lemma SbRotation_axis_x (radians : R) :
  SbRotation_axis (mkVec3f 1 0 0) radians =
  mkRotation (sin (radians / 2)) 0 0 (cos (radians / 2)).
Proof.
  unfold SbRotation_axis, SbVec3f_normalize, SbVec3f_length; simpl.
  replace (1 * 1 + 0 * 0 + 0 * 0) with 1 by ring.
  rewrite sqrt_1.
  destruct (Rlt_dec 0 1) as [_|H]; [|exfalso; apply H; lra].
  simpl. f_equal; field.
Qed.

Lemma SbRotation_axis_z (radians : R) :
  SbRotation_axis (mkVec3f 0 0 1) radians =
  mkRotation 0 0 (sin (radians / 2)) (cos (radians / 2)).
Proof.
  unfold SbRotation_axis, SbVec3f_normalize, SbVec3f_length; simpl.
  replace (0 * 0 + 0 * 0 + 1 * 1) with 1 by ring.
  rewrite sqrt_1.
  destruct (Rlt_dec 0 1) as [_|H]; [|exfalso; apply H; lra].
  simpl. f_equal; field.
Qed.

(** A quaternion of norm one is its own normalization. *)
Lemma SbRotation_normalize_unit (r : SbRotation) :
  q0 r * q0 r + q1 r * q1 r + q2 r * q2 r + q3 r * q3 r = 1 ->
  SbRotation_normalize r = r.
Proof.
  intros Hunit. unfold SbRotation_normalize, SbRotation_norm.
  rewrite Hunit, sqrt_1.
  destruct (Rlt_dec 0 1) as [_|H]; [|exfalso; apply H; lra].
  destruct r as [a b c d]; simpl. f_equal; field.
Qed.

(** The product of the library is the composition, left operand first, on
    the rotations about the x and the z axis. *)
Lemma SbRotation_mul_x_z (a b : R) :
  SbRotation_mul (mkRotation (sin a) 0 0 (cos a)) (mkRotation 0 0 (sin b) (cos b)) =
  composed (mkRotation (sin a) 0 0 (cos a)) (mkRotation 0 0 (sin b) (cos b)).
Proof.
  unfold SbRotation_mul, composed; simpl.
  apply SbRotation_normalize_unit; simpl.
  pose proof (sin2_cos2 a) as Ha. pose proof (sin2_cos2 b) as Hb.
  unfold Rsqr in Ha, Hb.
  transitivity ((sin a * sin a + cos a * cos a) * (sin b * sin b + cos b * cos b)).
  - ring.
  - rewrite Ha, Hb. ring.
Qed.

(** What [update] assigns, in the words of the specification. *)
Lemma sun_rotation_composed (sp : SunPosition) :
  sun_rotation sp =
  composed (rotation_about_x (90 + elevation sp)) (rotation_about_z (- azimuth sp)).
Proof.
  unfold sun_rotation, rotation_about_x, rotation_about_z, gcf_degree.
  rewrite SbRotation_axis_x, SbRotation_axis_z.
  replace ((90 + elevation sp) * (PI / 180) / 2) with ((90 + elevation sp) * PI / 360) by field.
  replace (- azimuth sp * (PI / 180) / 2) with (- azimuth sp * PI / 360) by field.
  apply SbRotation_mul_x_z.
Qed.

(** The components of the assigned quaternion. *)
Lemma sun_rotation_components (sp : SunPosition) :
  let a := (90 + elevation sp) * PI / 360 in
  let b := - azimuth sp * PI / 360 in
  sun_rotation sp =
  mkRotation (cos b * sin a) (sin b * sin a) (sin b * cos a) (cos b * cos a).
Proof.
  intros a b. rewrite sun_rotation_composed.
  unfold composed, rotation_about_x, rotation_about_z; simpl.
  fold a b. f_equal; ring.
Qed.

(** Between the nadir and its mirror image the half angle of the tilt lies
    strictly inside (0, pi), so the tilt is a proper rotation. *)
Lemma sun_rotation_not_identity (sp : SunPosition) :
  -90 < elevation sp < 270 ->
  sun_rotation sp <> SbRotation_identity.
Proof.
  intros [Hlo Hhi] Heq.
  rewrite sun_rotation_components in Heq.
  unfold SbRotation_identity in Heq.
  injection Heq as H0 H1 _ _.
  set (a := (90 + elevation sp) * PI / 360) in *.
  set (b := - azimuth sp * PI / 360) in *.
  assert (Hsin : 0 < sin a).
  { pose proof PI_RGT_0 as Hpi.
    apply sin_gt_0; unfold a; nra. }
  pose proof (sin2_cos2 b) as Hb. unfold Rsqr in Hb.
  assert (Hz : sin a * (sin b * sin b + cos b * cos b) = 0).
  { transitivity (sin b * (sin b * sin a) + cos b * (cos b * sin a)); [ring|].
    rewrite H0, H1. ring. }
  rewrite Hb in Hz. lra.
Qed.

Lemma update_attached (h : Heap) (p s t a : addr) (node : SunNode3D)
    (sensor : SoNodeSensor) (sp : SunPosition) (tr : SoTransform) :
  load_SunNode3D h p = Some node ->
  m_sensor node = Some s ->
  m_transform node = Some t ->
  sensors h !! s = Some sensor ->
  attachedNode sensor = Some a ->
  load_SunPosition h a = Some sp ->
  load_SoTransform h t = Some tr ->
  update (Some p) h =
  Some (set_nodes (<[t := ASoTransform (set_rotation (sun_rotation sp) tr)]> (nodes h)) h).
Proof.
  intros Hnode Hs Ht Hsensor Ha Hsp Htr.
  unfold update. rewrite Hnode; simpl. rewrite Hs, Ht, Hsensor; simpl.
  rewrite Ha, Hsp; simpl. rewrite Htr; simpl. reflexivity.
Qed.

Lemma load_SoTransform_insert (h : Heap) (t : addr) (tr : SoTransform) :
  load_SoTransform (set_nodes (<[t := ASoTransform tr]> (nodes h)) h) t = Some tr.
Proof.
  unfold load_SoTransform, set_nodes; simpl. rewrite lookup_insert_eq. reflexivity.
Qed.

(** Where the sun quad ends up.  [create] puts the quad one unit down the
    negative z axis (SunNode3D.cpp 76-79), below the transform [update]
    turns; the rotation carries that point to the direction of the sun, with
    x to the east, y to the north and z to the zenith. *)
Lemma sun_rotation_points_to_sun (sp : SunPosition) :
  let alpha := elevation sp * gcf_degree in
  let gamma := azimuth sp * gcf_degree in
  SbRotation_multVec (sun_rotation sp) (mkVec3f 0 0 (-1)) =
  mkVec3f (sin gamma * cos alpha) (cos gamma * cos alpha) (sin alpha).
Proof.
  intros alpha gamma.
  rewrite sun_rotation_components.
  set (a := (90 + elevation sp) * PI / 360).
  set (b := - azimuth sp * PI / 360).
  assert (Ha : 2 * a = PI / 2 + alpha) by (unfold a, alpha, gcf_degree; field).
  assert (Hb : 2 * b = - gamma) by (unfold b, gamma, gcf_degree; field).
  assert (Hsa : 2 * sin a * cos a = cos alpha).
  { rewrite <- sin_2a, Ha, sin_plus, sin_PI2, cos_PI2. ring. }
  assert (Hca : cos a * cos a - sin a * sin a = - sin alpha).
  { rewrite <- cos_2a, Ha, cos_plus, sin_PI2, cos_PI2. ring. }
  assert (Hsb : 2 * sin b * cos b = - sin gamma).
  { rewrite <- sin_2a, Hb, sin_neg. reflexivity. }
  assert (Hcb : cos b * cos b - sin b * sin b = cos gamma).
  { rewrite <- cos_2a, Hb, cos_neg. reflexivity. }
  pose proof (sin2_cos2 b) as Hunit. unfold Rsqr in Hunit.
  unfold SbRotation_multVec; simpl. f_equal.
  - transitivity (- ((2 * sin a * cos a) * (2 * sin b * cos b))); [ring|].
    rewrite Hsa, Hsb. ring.
  - transitivity ((2 * sin a * cos a) * (cos b * cos b - sin b * sin b)); [ring|].
    rewrite Hsa, Hcb. ring.
  - transitivity (- ((cos a * cos a - sin a * sin a) * (sin b * sin b + cos b * cos b)));
      [ring|].
    rewrite Hca, Hunit. ring.
Qed.

Local Arguments update : simpl never.
Local Arguments sun_rotation : simpl never.

(** [attach] with a [SunPosition] leaves the sensor attached to it and the
    transform rotated for it: the public entry reaches the assignment. *)
Lemma attach_SunPosition (h : Heap) (this s t a : addr) (node : SunNode3D)
    (sensor : SoNodeSensor) (sp : SunPosition) (tr : SoTransform) :
  load_SunNode3D h this = Some node ->
  m_sensor node = Some s ->
  m_transform node = Some t ->
  sensors h !! s = Some sensor ->
  load_SunPosition h a = Some sp ->
  load_SoTransform h t = Some tr ->
  attach this (Some a) h =
  Some {| nodes := <[t := ASoTransform (set_rotation (sun_rotation sp) tr)]> (nodes h);
          sensors := <[s := {| callback_data := callback_data sensor;
                               attachedNode := Some a |}]> (sensors h) |}.
Proof.
  intros Hnode Hs Ht Hsensor Hsp Htr.
  unfold attach. rewrite Hnode; simpl. rewrite Hs, Hsensor; simpl.
  unfold set_sensors at 1 2; simpl. rewrite insert_insert_eq.
  erewrite update_attached; [reflexivity|..]; simpl; try eassumption.
  - apply lookup_insert_eq.
  - reflexivity.
Qed.

Lemma attach_in_scene :
  attach 1%positive (Some 4%positive) scene_unattached =
  update (Some 1%positive) scene_attached.
Proof.
  erewrite attach_SunPosition; [|reflexivity..].
  erewrite update_attached; [|reflexivity..].
  unfold scene_attached, set_sensors, set_nodes; simpl.
  rewrite insert_singleton_eq. reflexivity.
Qed.

End SunProperties.

Section SunClaims.
Import Inventor Sun.
Local Open Scope R_scope.

(** C1, as the specification has it, fails: [update] is no stub.  In the
    small scene the call moves the sun transform off the identity. *)
Lemma update_is_not_a_stub :
  exists h' tr',
    update (Some 1%positive) scene_attached = Some h' /\
    load_SoTransform scene_attached 2%positive =
      Some {| translation := mkVec3f 0 0 0; rotation := SbRotation_identity |} /\
    load_SoTransform h' 2%positive = Some tr' /\
    rotation tr' <> SbRotation_identity.
Proof.
  eexists; eexists. split; [|split; [|split]].
  - eapply (update_attached scene_attached 1%positive 3%positive 2%positive 4%positive);
      reflexivity.
  - reflexivity.
  - apply load_SoTransform_insert.
  - simpl. apply sun_rotation_not_identity. simpl. lra.
Qed.

(** C1, amended: [update] is defined, and it rotates.  On a node with a
    sensor and a transform, the sensor attached to a [SunPosition], the call
    returns with the transform's rotation set to the product [update]
    computes; for an elevation strictly between -90 and 270 degrees, so for
    every sun above the nadir, that rotation is not the identity. *)
Theorem update_performs_rotation :
  forall (h : Heap) (p s t a : addr) (node : SunNode3D) (sensor : SoNodeSensor)
         (sp : SunPosition) (tr : SoTransform),
    load_SunNode3D h p = Some node ->
    m_sensor node = Some s ->
    m_transform node = Some t ->
    sensors h !! s = Some sensor ->
    attachedNode sensor = Some a ->
    load_SunPosition h a = Some sp ->
    load_SoTransform h t = Some tr ->
    -90 < elevation sp < 270 ->
    exists h' tr',
      update (Some p) h = Some h' /\
      load_SoTransform h' t = Some tr' /\
      translation tr' = translation tr /\
      rotation tr' = sun_rotation sp /\
      rotation tr' <> SbRotation_identity.
Proof.
  intros h p s t a node sensor sp tr Hnode Hs Ht Hsensor Ha Hsp Htr Hel.
  eexists; eexists. split; [|split; [|split; [|split]]].
  - eapply update_attached; eassumption.
  - apply load_SoTransform_insert.
  - reflexivity.
  - reflexivity.
  - simpl. apply sun_rotation_not_identity. exact Hel.
Qed.

Lemma update_performs_rotation_witness :
  exists h' tr',
    update (Some 1%positive) scene_attached = Some h' /\
    load_SoTransform h' 2%positive = Some tr' /\
    translation tr' = mkVec3f 0 0 0 /\
    rotation tr' = sun_rotation {| azimuth := 0; elevation := 0 |} /\
    rotation tr' <> SbRotation_identity.
Proof.
  apply (update_performs_rotation scene_attached 1%positive 3%positive 2%positive 4%positive
           {| separator := {| children := [2%positive] |};
              m_transform := Some 2%positive; m_sensor := Some 3%positive |}
           {| callback_data := Some 1%positive; attachedNode := Some 4%positive |}
           {| azimuth := 0; elevation := 0 |}
           {| translation := mkVec3f 0 0 0; rotation := SbRotation_identity |});
    try reflexivity.
  simpl. lra.
Defined.

End SunClaims.

(* ===================================================================== *)
(** * Properties: rounding to [float] in [update] *)
(* ===================================================================== *)

Section SunFloatProperties.
Import Inventor Sun SunFloat.
Local Open Scope R_scope.









Lemma nearest_even_spec (y : R) (n : Z) :
  Rabs (y - IZR n) < 1 / 2 -> nearest_even y = n.
Proof.
  intros H. apply Rabs_def2 in H as [Hhi Hlo].
  unfold nearest_even.
  destruct (Rle_dec (IZR n) y) as [Hle|Hgt].
  - assert (Hf : Int_part y = n) by (symmetry; apply Int_part_spec; lra).
    rewrite Hf. destruct (Rlt_dec (y - IZR n) (1 / 2)); [reflexivity|lra].
  - assert (Hf : Int_part y = (n - 1)%Z).
    { symmetry; apply Int_part_spec. rewrite minus_IZR. lra. }
    rewrite Hf. rewrite minus_IZR.
    destruct (Rlt_dec (y - (IZR n - 1)) (1 / 2)); [lra|].
    destruct (Rlt_dec (1 / 2) (y - (IZR n - 1))); [lia|lra].
Qed.




Lemma round_binary32_0 : round_binary32 0 = 0.
Proof.
  unfold round_binary32. replace (0 / ulp 0) with 0 by (unfold Rdiv; ring).
  rewrite (nearest_even_spec 0 0) by (rewrite Rminus_diag, Rabs_R0; lra).
  ring.
Qed.












(** With both angles [float]s already, the casts change nothing. *)
Lemma update_exact_casts (data : option addr) (h : Heap) :
  (forall a sp, load_SunPosition h a = Some sp ->
     to_float ((90 + elevation sp) * gcf_degree) = Some ((90 + elevation sp) * gcf_degree) /\
     to_float (- azimuth sp * gcf_degree) = Some (- azimuth sp * gcf_degree)) ->
  SunFloat.update data h = Sun.update data h.
Proof.
  intros Hexact. destruct data as [p|]; [|reflexivity].
  unfold SunFloat.update, Sun.update.
  destruct (load_SunNode3D h p) as [node|]; [|reflexivity]. simpl.
  destruct (m_sensor node) as [s|]; [|reflexivity].
  destruct (m_transform node) as [t|]; [|reflexivity].
  destruct (sensors h !! s) as [sensor|]; [|reflexivity]. simpl.
  destruct (attachedNode sensor) as [a|]; [|reflexivity].
  destruct (load_SunPosition h a) as [sp|] eqn:Hsp; [|reflexivity]. simpl.
  destruct (Hexact a sp Hsp) as [Hx Hz].
  unfold SunFloat.sun_rotation. rewrite Hx, Hz. reflexivity.
Qed.

End SunFloatProperties.

Section SunFloatClaims.
Import Inventor Sun SunFloat.
Local Open Scope R_scope.




End SunFloatClaims.

(* ===================================================================== *)
(** * Properties: registration with the type system *)
(* ===================================================================== *)

Section TypeSystemProperties.
Import Inventor.

Lemma SO_NODE_INIT_CLASS_fresh (class parentclass parentname : string)
    (reg : SoTypeRegistry) :
  reg !! class = None ->
  is_Some (reg !! parentclass) ->
  SO_NODE_INIT_CLASS class parentclass parentname reg =
  Some (<[class := Some parentclass]> reg).
Proof.
  intros Hfresh [up Hparent]. unfold SO_NODE_INIT_CLASS.
  rewrite Hfresh, Hparent. reflexivity.
Qed.

(** A registered type whose recorded parent is registered derives from it. *)
Lemma isDerivedFrom_parent (reg : SoTypeRegistry) (class parentclass : string) :
  reg !! class = Some (Some parentclass) ->
  class <> parentclass ->
  isDerivedFrom reg class parentclass = true.
Proof.
  intros Hclass Hne. unfold isDerivedFrom. rewrite Hclass.
  assert (Hsize : exists n, size reg = S n).
  { destruct (size reg) as [|n] eqn:Hn; [|eauto].
    apply map_size_empty_iff in Hn. subst reg.
    rewrite lookup_empty in Hclass. discriminate. }
  destruct Hsize as [n ->]. simpl.
  destruct (String.eqb_spec class parentclass) as [?|_]; [contradiction|].
  rewrite Hclass. rewrite String.eqb_refl. reflexivity.
Qed.

(** C9: [SunNode3D] and [SkyNode3D] are scene-graph node classes built on
    [SoSeparator].  Every instance holds a [SoSeparator] base subobject, which
    the conversions to the base class return; and in a type system that knows
    [SoSeparator] and neither of the two classes yet, each [initClass]
    succeeds and enters its class with [SoSeparator] as the parent, in either
    order, after which both classes derive from [SoSeparator]. *)
Theorem sun_and_sky_nodes_are_separators :
  forall (reg : SoTypeRegistry) (sun : Sun.SunNode3D) (sky : Sky.SkyNode3D),
    is_Some (reg !! "SoSeparator") ->
    reg !! "SunNode3D" = None ->
    reg !! "SkyNode3D" = None ->
    Sun.as_SoSeparator sun = Sun.separator sun /\
    Sky.getRoot sky = Sky.separator sky /\
    Sun.initClass reg = Some (<["SunNode3D" := Some "SoSeparator"]> reg) /\
    Sky.initClass reg = Some (<["SkyNode3D" := Some "SoSeparator"]> reg) /\
    exists reg',
      (Sun.initClass reg ≫= Sky.initClass) = Some reg' /\
      (Sky.initClass reg ≫= Sun.initClass) = Some reg' /\
      reg' !! "SunNode3D" = Some (Some "SoSeparator") /\
      reg' !! "SkyNode3D" = Some (Some "SoSeparator") /\
      isDerivedFrom reg' "SunNode3D" "SoSeparator" = true /\
      isDerivedFrom reg' "SkyNode3D" "SoSeparator" = true.
Proof.
  intros reg sun sky Hsep Hsun Hsky.
  assert (Hsun1 : Sun.initClass reg = Some (<["SunNode3D" := Some "SoSeparator"]> reg))
    by (apply SO_NODE_INIT_CLASS_fresh; assumption).
  assert (Hsky1 : Sky.initClass reg = Some (<["SkyNode3D" := Some "SoSeparator"]> reg))
    by (apply SO_NODE_INIT_CLASS_fresh; assumption).
  do 2 (split; [reflexivity|]). do 2 (split; [assumption|]).
  exists (<["SkyNode3D" := Some "SoSeparator"]> (<["SunNode3D" := Some "SoSeparator"]> reg)).
  assert (Hsun2 : (<["SkyNode3D" := Some "SoSeparator"]>
                     (<["SunNode3D" := Some "SoSeparator"]> reg)) !! "SunNode3D"
                  = Some (Some "SoSeparator"))
    by (rewrite lookup_insert_ne by discriminate; apply lookup_insert_eq).
  assert (Hsky2 : (<["SkyNode3D" := Some "SoSeparator"]>
                     (<["SunNode3D" := Some "SoSeparator"]> reg)) !! "SkyNode3D"
                  = Some (Some "SoSeparator"))
    by apply lookup_insert_eq.
  split; [|split; [|split; [|split; [|split]]]].
  - rewrite Hsun1; simpl. unfold Sky.initClass. apply SO_NODE_INIT_CLASS_fresh.
    + rewrite lookup_insert_ne by discriminate. assumption.
    + rewrite lookup_insert_ne by discriminate. assumption.
  - rewrite Hsky1; simpl. unfold Sun.initClass.
    rewrite SO_NODE_INIT_CLASS_fresh.
    + f_equal. apply insert_insert_ne. discriminate.
    + rewrite lookup_insert_ne by discriminate. assumption.
    + rewrite lookup_insert_ne by discriminate. assumption.
  - exact Hsun2.
  - exact Hsky2.
  - apply isDerivedFrom_parent; [exact Hsun2 | discriminate].
  - apply isDerivedFrom_parent; [exact Hsky2 | discriminate].
Qed.

(** In Coin's own registry both registrations succeed. *)
Lemma sun_and_sky_nodes_are_separators_witness :
  exists reg',
    (Sun.initClass coin_registry ≫= Sky.initClass) = Some reg' /\
    isDerivedFrom reg' "SunNode3D" "SoSeparator" = true /\
    isDerivedFrom reg' "SkyNode3D" "SoSeparator" = true.
Proof.
  destruct (sun_and_sky_nodes_are_separators coin_registry
              {| Sun.separator := {| Sun.children := [] |};
                 Sun.m_transform := None; Sun.m_sensor := None |}
              {| Sky.separator := {| Sun.children := [] |}; Sky.m_skyTransform := None |})
    as (_ & _ & _ & _ & reg' & Hboth & _ & _ & _ & Hsun & Hsky).
  - exists (Some "SoGroup"). reflexivity.
  - reflexivity.
  - reflexivity.
  - exists reg'. split; [exact Hboth | split; [exact Hsun | exact Hsky]].
Defined.

End TypeSystemProperties.

(* ===================================================================== *)
(** * Properties: the launcher script *)
(* ===================================================================== *)

Section LauncherProperties.
Import Launcher.







(** ** The last character *)


(** ** Dropping from the front *)



(** ** Names without a slash *)



(** ** Walking a path *)















(** ** The last character of a path name *)









(** ** The two command substitutions *)





Lemma expand_insert_eq (name value : string) (vs : variables) :
  expand (<[name := value]> vs) name = value.
Proof. unfold expand. rewrite lookup_insert_eq. reflexivity. Qed.

Lemma expand_insert_ne (name other value : string) (vs : variables) :
  name <> other -> expand (<[name := value]> vs) other = expand vs other.
Proof. intros H. unfold expand. rewrite lookup_insert_ne by exact H. reflexivity. Qed.





End LauncherProperties.

Section LauncherClaims.
Import Launcher.



End LauncherClaims.

(* ===================================================================== *)
(** * Properties: the SoQt smoke test *)
(* ===================================================================== *)

Section SoQtSmokeProperties.
Import SoQtSmoke.
Context {World : Type}.
Variable toolkit : forall X, Call X -> World -> option (X * World).

(** A run and its trace show the same calls and the same result. *)
Lemma run_trace {A} (p : Prog A) (w : World) :
  run toolkit p w = (map call_of (fst (trace toolkit p w)), snd (trace toolkit p w)).
Proof.
  revert w. induction p as [a|X c k IH]; intros w; simpl.
  - reflexivity.
  - destruct (toolkit X c w) as [[x w']|]; [|reflexivity].
    rewrite (IH x w'). destruct (trace toolkit (k x) w') as [evs r]. reflexivity.
Qed.

(** Replay the answers already known, as far as they go. *)
Ltac replay :=
  simpl;
  repeat match goal with
         | H : toolkit _ _ _ = _ |- _ => rewrite H; simpl
         end.

(** The run stopped in the call numbered [n], which did not come back. *)
Ltac stopped mainWin viewer cube n :=
  exists mainWin, viewer, cube; unfold main; replay;
  split;
  [ right; split; [reflexivity|]; exists n; eexists; split; reflexivity
  | intros Hanswers;
    match goal with
    | H : toolkit ?X ?c ?w = None |- _ =>
        destruct (Hanswers X c w) as [? Hsome]; rewrite Hsome in H; discriminate H
    end ].

(** C8: [main] makes its calls in one fixed order, each on what the toolkit
    answered before.  It initializes SoQt, which returns the main widget,
    then SoDB, then SoInteraction; it creates an examiner viewer on that
    widget and a cube, makes that cube the scene graph of that viewer, shows
    the viewer and the main widget, runs the main loop and deletes the
    viewer.  Whatever the toolkit answers, a run that returns has made
    exactly these calls, [mainWin], [viewer] and [cube] being the answers the
    trace records for [SoQt::init] and the two [new], and it returns 0; a run
    that does not return has made an initial part of them and hangs in the
    next; and the run returns whenever every call comes back. *)
Theorem main_bootstrap_order (w : World) (argv : list string) :
  exists mainWin viewer cube,
    (snd (trace toolkit (main argv) w) = Some 0%Z /\
     fst (trace toolkit (main argv) w) = bootstrap_answered argv mainWin viewer cube
     \/
     snd (trace toolkit (main argv) w) = None /\
     exists (n : nat) (e : Answered),
       bootstrap_answered argv mainWin viewer cube !! n = Some e /\
       fst (trace toolkit (main argv) w) =
       take n (bootstrap_answered argv mainWin viewer cube) ++ [unanswered e]) /\
    ((forall X (c : Call X) w', is_Some (toolkit X c w')) ->
     snd (trace toolkit (main argv) w) = Some 0%Z).
Proof.
  destruct (toolkit _ (SoQt_init (length argv) argv (head argv)) w)
    as [[mainWin w1]|] eqn:E1; [|stopped (@None addr) 1%positive 1%positive 0%nat].
  destruct (toolkit _ SoDB_init w1) as [[[] w2]|] eqn:E2;
    [|stopped mainWin 1%positive 1%positive 1%nat].
  destruct (toolkit _ SoInteraction_init w2) as [[[] w3]|] eqn:E3;
    [|stopped mainWin 1%positive 1%positive 2%nat].
  destruct (toolkit _ (new_SoQtExaminerViewer mainWin) w3) as [[viewer w4]|] eqn:E4;
    [|stopped mainWin 1%positive 1%positive 3%nat].
  destruct (toolkit _ new_SoCube w4) as [[cube w5]|] eqn:E5;
    [|stopped mainWin viewer 1%positive 4%nat].
  destruct (toolkit _ (setSceneGraph viewer (Some cube)) w5) as [[[] w6]|] eqn:E6;
    [|stopped mainWin viewer cube 5%nat].
  destruct (toolkit _ (viewer_show viewer) w6) as [[[] w7]|] eqn:E7;
    [|stopped mainWin viewer cube 6%nat].
  destruct (toolkit _ (SoQt_show mainWin) w7) as [[[] w8]|] eqn:E8;
    [|stopped mainWin viewer cube 7%nat].
  destruct (toolkit _ SoQt_mainLoop w8) as [[[] w9]|] eqn:E9;
    [|stopped mainWin viewer cube 8%nat].
  destruct (toolkit _ (delete_viewer viewer) w9) as [[[] w10]|] eqn:E10;
    [|stopped mainWin viewer cube 9%nat].
  exists mainWin, viewer, cube. unfold main. replay.
  split; [left; split; reflexivity|].
  intros _. reflexivity.
Qed.

End SoQtSmokeProperties.

Section SoQtSmokeRuns.
Import SoQtSmoke.

(** With a toolkit that answers every call the run is the whole bootstrap,
    and it returns 0. *)
Lemma main_returns_zero :
  run counting_toolkit (main ["soqt_smoketest"]) 1%positive =
  (bootstrap ["soqt_smoketest"] (Some 1%positive) 2%positive 3%positive, Some 0%Z).
Proof. reflexivity. Qed.

(** The trace of that run: the main widget is at 1, and the viewer made on
    it, at 2, gets the cube at 3. *)
Lemma main_trace_counting :
  trace counting_toolkit (main ["soqt_smoketest"]) 1%positive =
  (bootstrap_answered ["soqt_smoketest"] (Some 1%positive) 2%positive 3%positive, Some 0%Z).
Proof. reflexivity. Qed.

(** With a main loop that never ends the run stops there and returns nothing. *)
Lemma main_stays_in_main_loop :
  run looping_toolkit (main ["soqt_smoketest"]) 1%positive =
  (take 9 (bootstrap ["soqt_smoketest"] (Some 1%positive) 2%positive 3%positive), None).
Proof. reflexivity. Qed.

End SoQtSmokeRuns.

(* ===================================================================== *)
(** * Further properties: the sun node *)
(* ===================================================================== *)

Section SunFurther.
Import Inventor Sun.
Local Open Scope R_scope.
Local Arguments update : simpl never.
Local Arguments sun_rotation : simpl never.

(** The two ways [update] returns: with the store as it was, or with one
    transform rewritten. *)
Lemma update_inv (data : option addr) (h h' : Heap) :
  update data h = Some h' ->
  h' = h \/
  exists p node s t sensor a sp tr,
    data = Some p /\
    load_SunNode3D h p = Some node /\
    m_sensor node = Some s /\
    m_transform node = Some t /\
    sensors h !! s = Some sensor /\
    attachedNode sensor = Some a /\
    load_SunPosition h a = Some sp /\
    load_SoTransform h t = Some tr /\
    h' = set_nodes (<[t := ASoTransform (set_rotation (sun_rotation sp) tr)]> (nodes h)) h.
Proof.
  unfold update. intros H.
  destruct data as [p|]; [|left; congruence].
  destruct (load_SunNode3D h p) as [node|] eqn:Hnode; [|discriminate].
  simpl in H.
  destruct (m_sensor node) as [s|] eqn:Hs; [|left; congruence].
  destruct (m_transform node) as [t|] eqn:Ht; [|left; congruence].
  destruct (sensors h !! s) as [sensor|] eqn:Hsensor; [|discriminate].
  simpl in H.
  destruct (attachedNode sensor) as [a|] eqn:Ha; [|left; congruence].
  destruct (load_SunPosition h a) as [sp|] eqn:Hsp; [|discriminate].
  simpl in H.
  destruct (load_SoTransform h t) as [tr|] eqn:Htr; [|discriminate].
  simpl in H. injection H as H. subst h'.
  right. exists p, node, s, t, sensor, a, sp, tr. repeat split; assumption.
Qed.

(** Two pointers that are read at different types do not alias. *)
Lemma load_SunNode3D_not_transform (h : Heap) (p t : addr) node tr :
  load_SunNode3D h p = Some node -> load_SoTransform h t = Some tr -> p <> t.
Proof.
  unfold load_SunNode3D, load_SoTransform. intros Hp Ht ->.
  destruct (nodes h !! t) as [[]|]; discriminate.
Qed.

Lemma load_SunPosition_not_transform (h : Heap) (a t : addr) sp tr :
  load_SunPosition h a = Some sp -> load_SoTransform h t = Some tr -> a <> t.
Proof.
  unfold load_SunPosition, load_SoTransform. intros Ha Ht ->.
  destruct (nodes h !! t) as [[]|]; discriminate.
Qed.

(** Writing a transform is seen by no read at another type. *)
Lemma load_SunNode3D_write_transform (h : Heap) (t q : addr) (tr tr' : SoTransform) :
  load_SoTransform h t = Some tr ->
  load_SunNode3D (set_nodes (<[t := ASoTransform tr']> (nodes h)) h) q = load_SunNode3D h q.
Proof.
  intros Ht. unfold load_SunNode3D, load_SoTransform in *; simpl.
  destruct (decide (t = q)) as [->|Hne].
  - rewrite lookup_insert_eq. destruct (nodes h !! q) as [[]|]; try discriminate; reflexivity.
  - rewrite lookup_insert_ne by exact Hne. reflexivity.
Qed.

Lemma load_SunPosition_write_transform (h : Heap) (t q : addr) (tr tr' : SoTransform) :
  load_SoTransform h t = Some tr ->
  load_SunPosition (set_nodes (<[t := ASoTransform tr']> (nodes h)) h) q = load_SunPosition h q.
Proof.
  intros Ht. unfold load_SunPosition, load_SoTransform in *; simpl.
  destruct (decide (t = q)) as [->|Hne].
  - rewrite lookup_insert_eq. destruct (nodes h !! q) as [[]|]; try discriminate; reflexivity.
  - rewrite lookup_insert_ne by exact Hne. reflexivity.
Qed.

Lemma load_SoTransform_write_other (h : Heap) (t q : addr) (tr' : SoTransform) :
  t <> q ->
  load_SoTransform (set_nodes (<[t := ASoTransform tr']> (nodes h)) h) q = load_SoTransform h q.
Proof.
  intros Hne. unfold load_SoTransform; simpl.
  rewrite lookup_insert_ne by exact Hne. reflexivity.
Qed.

(** Once the rotation for the attached [SunPosition] is stored, [update]
    stores it again and nothing moves. *)
Lemma update_settled (h : Heap) (p s t a : addr) (node : SunNode3D)
    (sensor : SoNodeSensor) (sp : SunPosition) (tr : SoTransform) :
  load_SunNode3D h p = Some node ->
  m_sensor node = Some s ->
  m_transform node = Some t ->
  sensors h !! s = Some sensor ->
  attachedNode sensor = Some a ->
  load_SunPosition h a = Some sp ->
  load_SoTransform h t = Some tr ->
  update (Some p)
    (set_nodes (<[t := ASoTransform (set_rotation (sun_rotation sp) tr)]> (nodes h)) h) =
  Some (set_nodes (<[t := ASoTransform (set_rotation (sun_rotation sp) tr)]> (nodes h)) h).
Proof.
  intros Hnode Hs Ht Hsensor Ha Hsp Htr.
  rewrite (update_attached _ p s t a node sensor sp (set_rotation (sun_rotation sp) tr));
    try assumption.
  - f_equal. unfold set_nodes; simpl. rewrite insert_insert_eq. reflexivity.
  - erewrite load_SunNode3D_write_transform; eassumption.
  - erewrite load_SunPosition_write_transform; eassumption.
  - apply load_SoTransform_insert.
Qed.

(** X1: [update] writes nothing but the rotation of one transform.  When it
    returns, the sensors are as they were, the same addresses hold nodes,
    every sun node and every [SunPosition] reads as before, and every
    transform has the translation it had. *)
Theorem update_writes_only_a_rotation :
  forall (data : option addr) (h h' : Heap),
    update data h = Some h' ->
    sensors h' = sensors h /\
    dom (nodes h') = dom (nodes h) /\
    forall q : addr,
      load_SunNode3D h' q = load_SunNode3D h q /\
      load_SunPosition h' q = load_SunPosition h q /\
      translation <$> load_SoTransform h' q = translation <$> load_SoTransform h q.
Proof.
  intros data h h' H.
  apply update_inv in H as [->|(p & node & s & t & sensor & a & sp & tr & _ & _ & _ & _ & _ & _ & _ & Htr & ->)].
  - repeat split.
  - split; [reflexivity|]. split.
    + simpl. rewrite dom_insert_L.
      assert (t ∈ dom (nodes h)); [|set_solver].
      apply elem_of_dom. unfold load_SoTransform in Htr.
      destruct (nodes h !! t); [eauto | discriminate].
    + intros q. split; [|split].
      * eapply load_SunNode3D_write_transform; eassumption.
      * eapply load_SunPosition_write_transform; eassumption.
      * destruct (decide (t = q)) as [<-|Hne].
        -- rewrite load_SoTransform_insert, Htr. reflexivity.
        -- rewrite load_SoTransform_write_other by exact Hne. reflexivity.
Qed.

Lemma update_writes_only_a_rotation_witness :
  exists h',
    update (Some 1%positive) scene_attached = Some h' /\
    sensors h' = sensors scene_attached /\
    dom (nodes h') = dom (nodes scene_attached).
Proof.
  eexists. split.
  - eapply (update_attached scene_attached 1%positive 3%positive 2%positive 4%positive);
      reflexivity.
  - split.
    + eapply (proj1 (update_writes_only_a_rotation (Some 1%positive) scene_attached _ _)).
    + eapply (proj1 (proj2 (update_writes_only_a_rotation (Some 1%positive) scene_attached _ _))).
  Unshelve.
  all: eapply (update_attached scene_attached 1%positive 3%positive 2%positive 4%positive);
    reflexivity.
Defined.

(** X2: [update] is idempotent.  Calling it again on the store it returned,
    as the sensor does at every later notification with the sun unmoved,
    returns that store unchanged. *)
Theorem update_idempotent :
  forall (data : option addr) (h h' : Heap),
    update data h = Some h' ->
    update data h' = Some h'.
Proof.
  intros data h h' H.
  pose proof (update_inv _ _ _ H)
    as [->|(p & node & s & t & sensor & a & sp & tr & -> & Hnode & Hs & Ht & Hsensor & Ha & Hsp & Htr & ->)].
  - exact H.
  - eapply update_settled; eassumption.
Qed.

Lemma update_idempotent_witness :
  update (Some 1%positive)
    (set_nodes (<[2%positive := ASoTransform
                     (set_rotation (sun_rotation {| azimuth := 0; elevation := 0 |})
                        {| translation := mkVec3f 0 0 0; rotation := SbRotation_identity |})]>
                  (nodes scene_attached)) scene_attached) =
  Some (set_nodes (<[2%positive := ASoTransform
                     (set_rotation (sun_rotation {| azimuth := 0; elevation := 0 |})
                        {| translation := mkVec3f 0 0 0; rotation := SbRotation_identity |})]>
                  (nodes scene_attached)) scene_attached).
Proof.
  apply (update_idempotent (Some 1%positive) scene_attached).
  eapply (update_attached scene_attached 1%positive 3%positive 2%positive 4%positive);
    reflexivity.
Defined.

(** X3: detaching.  [attach] with a null pointer touches no node, leaves the
    sun node's sensor attached to nothing, and makes every later [update]
    on the node return without a change. *)
Theorem attach_null_detaches :
  forall (this : addr) (h h' : Heap),
    attach this None h = Some h' ->
    nodes h' = nodes h /\
    update (Some this) h' = Some h' /\
    forall node s,
      load_SunNode3D h this = Some node ->
      m_sensor node = Some s ->
      attachedNode <$> sensors h' !! s = Some None.
Proof.
  intros this h h' H. unfold attach in H.
  destruct (load_SunNode3D h this) as [node|] eqn:Hnode; [|discriminate].
  simpl in H.
  destruct (m_sensor node) as [s|] eqn:Hs.
  - destruct (sensors h !! s) as [sensor|] eqn:Hsensor; [|discriminate].
    simpl in H. injection H as H. subst h'.
    split; [reflexivity|]. split.
    + unfold update.
      change (load_SunNode3D (set_sensors _ h) this) with (load_SunNode3D h this).
      rewrite Hnode; simpl. rewrite Hs.
      destruct (m_transform node); [|reflexivity].
      rewrite lookup_insert_eq. reflexivity.
    + intros node' s' Hnode' Hs'. injection Hnode' as <-.
      rewrite Hs in Hs'. injection Hs' as <-.
      simpl. rewrite lookup_insert_eq. reflexivity.
  - injection H as H. subst h'.
    split; [reflexivity|]. split.
    + unfold update. rewrite Hnode; simpl. rewrite Hs. reflexivity.
    + intros node' s' Hnode' Hs'. injection Hnode' as <-.
      rewrite Hs in Hs'. discriminate.
Qed.

Lemma attach_null_detaches_witness :
  nodes (set_sensors {[ 3%positive := {| callback_data := Some 1%positive;
                                         attachedNode := None |} ]} scene_attached)
    = nodes scene_attached /\
  update (Some 1%positive)
    (set_sensors {[ 3%positive := {| callback_data := Some 1%positive;
                                     attachedNode := None |} ]} scene_attached)
    = Some (set_sensors {[ 3%positive := {| callback_data := Some 1%positive;
                                            attachedNode := None |} ]} scene_attached).
Proof.
  destruct (attach_null_detaches 1%positive scene_attached
              (set_sensors {[ 3%positive := {| callback_data := Some 1%positive;
                                               attachedNode := None |} ]} scene_attached))
    as (Hnodes & Hupdate & _).
  - reflexivity.
  - split; [exact Hnodes | exact Hupdate].
Defined.



(** X5: the last [attach] wins.  Attaching to one [SunPosition] and then to
    another leaves exactly the store that attaching to the second alone
    leaves: nothing of the first remains in the sensor or in the rotation. *)
Theorem attach_again_overrides :
  forall (h : Heap) (this s t a1 a2 : addr) (node : SunNode3D) (sensor : SoNodeSensor)
         (sp1 sp2 : SunPosition) (tr : SoTransform),
    load_SunNode3D h this = Some node ->
    m_sensor node = Some s ->
    m_transform node = Some t ->
    sensors h !! s = Some sensor ->
    load_SunPosition h a1 = Some sp1 ->
    load_SunPosition h a2 = Some sp2 ->
    load_SoTransform h t = Some tr ->
    (attach this (Some a1) h ≫= attach this (Some a2)) = attach this (Some a2) h.
Proof.
  intros h this s t a1 a2 node sensor sp1 sp2 tr Hnode Hs Ht Hsensor Hsp1 Hsp2 Htr.
  rewrite (attach_SunPosition h this s t a1 node sensor sp1 tr) by assumption.
  rewrite (attach_SunPosition h this s t a2 node sensor sp2 tr) by assumption.
  simpl.
  set (sensor1 := {| callback_data := callback_data sensor; attachedNode := Some a1 |}).
  set (tr1 := set_rotation (sun_rotation sp1) tr).
  rewrite (attach_SunPosition
             {| nodes := <[t := ASoTransform tr1]> (nodes h);
                sensors := <[s := sensor1]> (sensors h) |}
             this s t a2 node sensor1 sp2 tr1).
  - simpl. rewrite !insert_insert_eq. reflexivity.
  - etransitivity; [|exact Hnode].
    exact (load_SunNode3D_write_transform (set_sensors (<[s := sensor1]> (sensors h)) h)
             t this tr tr1 Htr).
  - exact Hs.
  - exact Ht.
  - simpl. apply lookup_insert_eq.
  - etransitivity; [|exact Hsp2].
    exact (load_SunPosition_write_transform (set_sensors (<[s := sensor1]> (sensors h)) h)
             t a2 tr tr1 Htr).
  - unfold load_SoTransform; simpl. rewrite lookup_insert_eq. reflexivity.
Qed.

End SunFurther.

(* ===================================================================== *)
(** * Further properties: construction of the sun node *)
(* ===================================================================== *)

Section SunConstruction.
Import Inventor Sun SunScene.
Local Open Scope R_scope.
Local Arguments update : simpl never.
Local Arguments sun_rotation : simpl never.

Variable alloc : gset addr -> addr.
Hypothesis alloc_fresh : forall X, alloc X ∉ X.

Lemma used_mkWorld N S Sh Nm : used (mkWorld N S Sh Nm) = dom N ∪ dom S ∪ dom Sh.
Proof. reflexivity. Qed.

Lemma new_node_mkWorld n N S Sh Nm :
  new_node alloc n (mkWorld N S Sh Nm) =
  (alloc (used (mkWorld N S Sh Nm)),
   mkWorld (<[alloc (used (mkWorld N S Sh Nm)) := n]> N) S Sh Nm).
Proof. reflexivity. Qed.

Lemma new_sensor_mkWorld s N S Sh Nm :
  new_sensor alloc s (mkWorld N S Sh Nm) =
  (alloc (used (mkWorld N S Sh Nm)),
   mkWorld N (<[alloc (used (mkWorld N S Sh Nm)) := s]> S) Sh Nm).
Proof. reflexivity. Qed.

Lemma addChild_mkWorld this c node N S Sh Nm :
  N !! this = Some (ASunNode3D node) ->
  addChild this c (mkWorld N S Sh Nm) =
  Some (mkWorld (<[this := ASunNode3D (kid node c)]> N) S Sh Nm).
Proof. intros H. unfold addChild, load_SunNode3D; simpl. rewrite H. reflexivity. Qed.

Lemma set_m_transform_mkWorld this t node N S Sh Nm :
  N !! this = Some (ASunNode3D node) ->
  set_m_transform this t (mkWorld N S Sh Nm) =
  Some (mkWorld (<[this := ASunNode3D {| separator := separator node; m_transform := t;
                                         m_sensor := m_sensor node |}]> N) S Sh Nm).
Proof. intros H. unfold set_m_transform, load_SunNode3D; simpl. rewrite H. reflexivity. Qed.

Lemma set_m_sensor_mkWorld this s node N S Sh Nm :
  N !! this = Some (ASunNode3D node) ->
  set_m_sensor this s (mkWorld N S Sh Nm) =
  Some (mkWorld (<[this := ASunNode3D {| separator := separator node;
                                         m_transform := m_transform node;
                                         m_sensor := s |}]> N) S Sh Nm).
Proof. intros H. unfold set_m_sensor, load_SunNode3D; simpl. rewrite H. reflexivity. Qed.

Lemma add_new_node_mkWorld this n node N S Sh Nm :
  N !! this = Some (ASunNode3D node) ->
  add_new_node alloc this n (mkWorld N S Sh Nm) =
  Some (alloc (used (mkWorld N S Sh Nm)),
        mkWorld (<[this := ASunNode3D (kid node (alloc (used (mkWorld N S Sh Nm))))]>
                   (<[alloc (used (mkWorld N S Sh Nm)) := n]> N)) S Sh Nm).
Proof.
  intros H. unfold add_new_node. rewrite new_node_mkWorld.
  rewrite (addChild_mkWorld this _ node); [reflexivity|].
  rewrite lookup_insert_ne; [exact H|].
  intros Heq. apply (alloc_fresh (used (mkWorld N S Sh Nm))). rewrite Heq, used_mkWorld.
  apply elem_of_union_l, elem_of_union_l, elem_of_dom. eauto.
Qed.

Lemma add_new_shape_mkWorld this sh node N S Sh Nm :
  N !! this = Some (ASunNode3D node) ->
  add_new_shape alloc this sh (mkWorld N S Sh Nm) =
  Some (alloc (used (mkWorld N S Sh Nm)),
        mkWorld (<[this := ASunNode3D (kid node (alloc (used (mkWorld N S Sh Nm))))]> N)
                S (<[alloc (used (mkWorld N S Sh Nm)) := sh]> Sh) Nm).
Proof.
  intros H. unfold add_new_shape.
  change (new_shape alloc sh (mkWorld N S Sh Nm))
    with (alloc (used (mkWorld N S Sh Nm)),
          mkWorld N S (<[alloc (used (mkWorld N S Sh Nm)) := sh]> Sh) Nm).
  cbv beta iota.
  rewrite (addChild_mkWorld this _ node) by exact H. reflexivity.
Qed.

(** Name the address just handed out and record that it was free. *)
Ltac name_new a F :=
  match goal with
  | |- context [alloc (used (mkWorld ?N ?S ?Sh ?Nm))] =>
      assert (F : alloc (used (mkWorld N S Sh Nm)) ∉ dom N ∪ dom S ∪ dom Sh)
        by apply (alloc_fresh (used (mkWorld N S Sh Nm)));
      set (a := alloc (used (mkWorld N S Sh Nm))) in *;
      clearbody a;
      rewrite ?dom_insert_L in F
  end.

(** A non-membership in a union of singletons and sets, piece by piece. *)
Ltac flatten F :=
  repeat first [rewrite not_elem_of_union in F | rewrite not_elem_of_singleton in F].

Ltac at_this := first [apply lookup_insert_eq | simplify_map_eq; reflexivity].

(** The whole of [new SunNode3D], step by step. *)
Lemma new_SunNode3D_run (w : World) :
  exists this t t2 tex tcs tbind coords face s,
    new_SunNode3D alloc w = Some (this, constructed w this t t2 tex tcs tbind coords face s) /\
    NoDup [this; t; t2; tex; tcs; tbind; coords; face; s] /\
    Forall (fun a => a ∉ used w) [this; t; t2; tex; tcs; tbind; coords; face; s].
Proof.
  destruct w as [[N S] Sh Nm].
  change {| heap := {| nodes := N; sensors := S |}; shapes := Sh; names := Nm |}
    with (mkWorld N S Sh Nm).
  unfold new_SunNode3D.
  rewrite new_node_mkWorld. cbv beta iota. name_new this F0.
  unfold create.
  rewrite new_node_mkWorld. cbv beta iota. name_new t F1.
  assert (Dt : t <> this) by set_solver.
  erewrite set_m_transform_mkWorld
    by (rewrite lookup_insert_ne by exact Dt; apply lookup_insert_eq).
  cbn [mbind option_bind].
  change (setName t "transformSun" (mkWorld ?N' S Sh Nm))
    with (mkWorld N' S Sh (<[t := "transformSun"]> Nm)).
  erewrite addChild_mkWorld by at_this. cbn [mbind option_bind].
  erewrite add_new_node_mkWorld by at_this. cbn [mbind option_bind]. name_new t2 F2.
  erewrite add_new_shape_mkWorld by at_this. cbn [mbind option_bind]. name_new tex F3.
  erewrite add_new_shape_mkWorld by at_this. cbn [mbind option_bind]. name_new tcs F4.
  erewrite add_new_shape_mkWorld by at_this. cbn [mbind option_bind]. name_new tbind F5.
  erewrite add_new_shape_mkWorld by at_this. cbn [mbind option_bind]. name_new coords F6.
  erewrite add_new_shape_mkWorld by at_this. cbn [mbind option_bind]. name_new face F7.
  rewrite new_sensor_mkWorld. cbv beta iota. name_new s F8.
  erewrite set_m_sensor_mkWorld by at_this. cbn [mbind option_bind].
  exists this, t, t2, tex, tcs, tbind, coords, face, s.
  assert (Dt2 : t2 <> this /\ t2 <> t) by set_solver.
  split; [|split].
  - f_equal. f_equal. unfold constructed, mkWorld; cbn [heap nodes sensors shapes names].
    f_equal. f_equal.
    apply map_eq. intros q.
    destruct (decide (q = this)) as [->|Hq].
    { rewrite !lookup_insert_eq. reflexivity. }
    destruct Dt2.
    destruct (decide (q = t2)) as [->|Hq2].
    { simplify_map_eq. reflexivity. }
    destruct (decide (q = t)) as [->|Hq1].
    { simplify_map_eq. reflexivity. }
    simplify_map_eq. reflexivity.
  - clear -F0 F1 F2 F3 F4 F5 F6 F7 F8.
    flatten F1; flatten F2; flatten F3; flatten F4; flatten F5; flatten F6; flatten F7;
      flatten F8.
    repeat (apply NoDup_cons; split;
            [rewrite ?not_elem_of_cons; repeat split;
             first [apply not_elem_of_nil | intuition congruence]|]).
    apply NoDup_nil. exact I.
  - clear -F0 F1 F2 F3 F4 F5 F6 F7 F8. rewrite used_mkWorld.
    flatten F0; flatten F1; flatten F2; flatten F3; flatten F4; flatten F5; flatten F6;
      flatten F7; flatten F8.
    repeat (apply Forall_cons; split; [rewrite !not_elem_of_union; tauto|]).
    apply Forall_nil. exact I.
Qed.

(** Nine addresses without a repeat are different two by two. *)
Ltac split_NoDup H :=
  repeat (apply NoDup_cons in H as [? H]);
  repeat match goal with
         | H' : _ ∉ _ :: _ |- _ => apply not_elem_of_cons in H' as [? H']
         end.

(** A lookup through inserts at addresses known to differ. *)
Ltac look :=
  repeat first
    [ rewrite lookup_insert_eq
    | rewrite lookup_insert_ne by (first [assumption | apply not_eq_sym; assumption]) ].

Ltac split_Forall H :=
  repeat match type of H with
         | Forall _ (_ :: _) => apply Forall_cons in H as [? H]
         end.

(** An address that was in use is none of the new ones. *)
Lemma in_use_not_new (w : World) (q a : addr) : q ∈ used w -> a ∉ used w -> a <> q.
Proof. intros Hq Ha ->. exact (Ha Hq). Qed.

Lemma node_in_use (w : World) (q : addr) (n : SoNode) :
  nodes (heap w) !! q = Some n -> q ∈ used w.
Proof.
  intros H. unfold used. apply elem_of_union_l, elem_of_union_l, elem_of_dom. eauto.
Qed.

(** X6: [new SunNode3D] always succeeds, at an address that was free, and
    touches no object that was there.  The node it leaves has seven children,
    the first of them the transform [getTransform] returns (named
    [transformSun], not rotated) and the second the translation by
    (0, 0, -1); its sensor calls back with the node itself and is attached to
    nothing, so that [update] on the new node changes nothing. *)
Theorem new_SunNode3D_builds (w : World) :
  exists this w' node t t2 s,
    new_SunNode3D alloc w = Some (this, w') /\
    (this ∉ used w) /\
    load_SunNode3D (heap w') this = Some node /\
    getTransform node = Some t /\
    m_sensor node = Some s /\
    length (children (separator node)) = 7%nat /\
    children (separator node) !! 0%nat = Some t /\
    children (separator node) !! 1%nat = Some t2 /\
    load_SoTransform (heap w') t = Some SoTransform_default /\
    names w' !! t = Some "transformSun" /\
    load_SoTransform (heap w') t2 =
      Some {| translation := mkVec3f 0 0 (-1); rotation := SbRotation_identity |} /\
    sensors (heap w') !! s = Some {| callback_data := Some this; attachedNode := None |} /\
    update (Some this) (heap w') = Some (heap w') /\
    forall q, q ∈ used w ->
      nodes (heap w') !! q = nodes (heap w) !! q /\
      sensors (heap w') !! q = sensors (heap w) !! q /\
      shapes w' !! q = shapes w !! q.
Proof.
  destruct (new_SunNode3D_run w)
    as (this & t & t2 & tex & tcs & tbind & coords & face & s & Hrun & Hnd & Hfree).
  split_NoDup Hnd. split_Forall Hfree.
  exists this, (constructed w this t t2 tex tcs tbind coords face s).
  eexists. exists t, t2, s.
  assert (Hnode : load_SunNode3D (heap (constructed w this t t2 tex tcs tbind coords face s)) this
                  = Some {| separator := {| children := [t; t2; tex; tcs; tbind; coords; face] |};
                            m_transform := Some t; m_sensor := Some s |}).
  { unfold load_SunNode3D; simpl. rewrite lookup_insert_eq. reflexivity. }
  split; [exact Hrun|]. split; [assumption|]. split; [exact Hnode|].
  do 5 (split; [reflexivity|]).
  split; [unfold load_SoTransform; simpl; look; reflexivity|].
  split; [simpl; apply lookup_insert_eq|].
  split; [unfold load_SoTransform; simpl; look; reflexivity|].
  split; [simpl; apply lookup_insert_eq|].
  split.
  - unfold update. rewrite Hnode; simpl. rewrite lookup_insert_eq. reflexivity.
  - intros q Hq.
    assert (this <> q /\ t <> q /\ t2 <> q /\ tex <> q /\ tcs <> q /\ tbind <> q /\
            coords <> q /\ face <> q /\ s <> q)
      as (? & ? & ? & ? & ? & ? & ? & ? & ?)
      by (repeat split; eapply in_use_not_new; eassumption).
    simpl. split; [|split]; look; reflexivity.
Qed.

End SunConstruction.

Section SunConstructionRuns.
Import Inventor Sun SunScene.
Local Open Scope R_scope.

Lemma least_free_fresh (X : gset addr) : least_free X ∉ X.
Proof. apply is_fresh. Qed.

Lemma new_SunNode3D_builds_witness :
  exists this w' node t t2 s,
    new_SunNode3D least_free world_with_sun = Some (this, w') /\
    (this ∉ used world_with_sun) /\
    load_SunNode3D (heap w') this = Some node /\
    getTransform node = Some t /\
    m_sensor node = Some s /\
    length (children (separator node)) = 7%nat /\
    children (separator node) !! 0%nat = Some t /\
    children (separator node) !! 1%nat = Some t2 /\
    load_SoTransform (heap w') t = Some SoTransform_default /\
    names w' !! t = Some "transformSun" /\
    load_SoTransform (heap w') t2 =
      Some {| translation := mkVec3f 0 0 (-1); rotation := SbRotation_identity |} /\
    sensors (heap w') !! s = Some {| callback_data := Some this; attachedNode := None |} /\
    update (Some this) (heap w') = Some (heap w') /\
    forall q, q ∈ used world_with_sun ->
      nodes (heap w') !! q = nodes (heap world_with_sun) !! q /\
      sensors (heap w') !! q = sensors (heap world_with_sun) !! q /\
      shapes w' !! q = shapes world_with_sun !! q.
Proof.
  exact (new_SunNode3D_builds least_free least_free_fresh world_with_sun).
Defined.

Lemma attach_again_overrides_witness :
  (attach 1%positive (Some 4%positive) scene_two_suns ≫= attach 1%positive (Some 5%positive)) =
  attach 1%positive (Some 5%positive) scene_two_suns.
Proof.
  apply (attach_again_overrides scene_two_suns 1%positive 3%positive 2%positive
           4%positive 5%positive
           {| separator := {| children := [2%positive] |};
              m_transform := Some 2%positive; m_sensor := Some 3%positive |}
           {| callback_data := Some 1%positive; attachedNode := None |}
           {| azimuth := 0; elevation := 0 |}
           {| azimuth := 90; elevation := 30 |}
           {| translation := mkVec3f 0 0 0; rotation := SbRotation_identity |});
    reflexivity.
Defined.

End SunConstructionRuns.

(* ===================================================================== *)
(** * Further properties: the photon-export interface *)
(* ===================================================================== *)

Section PhotonsFurther.
Import Photons PhotonsCalls.
Context {Photon : Type}.

Lemma call_base_vtable {D} (c : Call Photon) (o : Object D) :
  call (PhotonsAbstract_vtable Photon D) c o =
  match c with
  | CallSetSceneModel a => with_base (setSceneModel a (base o)) o
  | CallSetPhotonSettings (Some ps) => with_base (copy_settings ps (base o)) o
  | _ => o
  end.
Proof.
  destruct c as [| | | | |[ps|]|]; try reflexivity.
  unfold call, setPhotonSettings. apply setParameter_loop_base.
Qed.

Lemma last_settings_before (cs : list (Call Photon)) (before : option PhotonsSettings) :
  last_settings cs before =
  match last_settings cs None with
  | Some ps => Some ps
  | None => before
  end.
Proof.
  revert before. induction cs as [|c cs IH]; intros before; simpl.
  - reflexivity.
  - destruct c as [| | | | |[ps|]|]; try apply IH.
    rewrite (IH (Some ps)). destruct (last_settings cs None); reflexivity.
Qed.

(** A run of calls on the base class, in one step. *)
Lemma calls_base_vtable {D} (cs : list (Call Photon)) (o : Object D) :
  calls (PhotonsAbstract_vtable Photon D) cs o =
  with_base
    (with_scene_model (last_scene_model cs (m_sceneModel (base o)))
       (with_settings (last_settings cs None) (base o))) o.
Proof.
  unfold calls. revert o. induction cs as [|c cs IH]; intros o.
  - destruct o as [[] d]. reflexivity.
  - cbn [foldl]. rewrite IH, call_base_vtable.
    destruct c as [| | | | |[ps|]|]; try reflexivity.
    + cbn [last_scene_model last_settings].
      destruct (last_settings cs None); reflexivity.
    + cbn [last_scene_model last_settings].
      rewrite (last_settings_before cs (Some ps)).
      destruct (last_settings cs None); reflexivity.
Qed.

(** X9: what a run of calls leaves of a [PhotonsAbstract] whose class
    overrides nothing.  However many calls are made and in whatever order,
    [m_saveAllPhotonsData] keeps its value (no member function writes it),
    the scene model is the one of the last [setSceneModel], the surfaces and
    the five save flags are those of the last non-null settings (member by
    member, and as they were when there were none), and the members a
    derived class adds are untouched. *)
Theorem calls_keep_last_settings :
  forall (D : Type) (cs : list (Call Photon)) (o : Object D),
    m_saveAllPhotonsData (base (calls (PhotonsAbstract_vtable Photon D) cs o)) =
      m_saveAllPhotonsData (base o) /\
    m_sceneModel (base (calls (PhotonsAbstract_vtable Photon D) cs o)) =
      last_scene_model cs (m_sceneModel (base o)) /\
    derived (calls (PhotonsAbstract_vtable Photon D) cs o) = derived o /\
    (forall ps,
        last_settings cs None = Some ps ->
        base (calls (PhotonsAbstract_vtable Photon D) cs o) =
        copy_settings ps
          (with_scene_model (last_scene_model cs (m_sceneModel (base o))) (base o))) /\
    (last_settings cs None = None ->
     base (calls (PhotonsAbstract_vtable Photon D) cs o) =
     with_scene_model (last_scene_model cs (m_sceneModel (base o))) (base o)) /\
    (forall ps,
        last_settings cs None = Some ps ->
        let b := base (calls (PhotonsAbstract_vtable Photon D) cs o) in
        m_surfaces b = surfaces ps /\
        m_saveCoordinates b = saveCoordinates ps /\
        m_saveCoordinatesGlobal b = saveCoordinatesGlobal ps /\
        m_saveSurfaceID b = saveSurfaceID ps /\
        m_saveSurfaceSide b = saveSurfaceSide ps /\
        m_savePhotonsID b = savePhotonsID ps) /\
    (last_settings cs None = None ->
     let b := base (calls (PhotonsAbstract_vtable Photon D) cs o) in
     m_surfaces b = m_surfaces (base o) /\
     m_saveCoordinates b = m_saveCoordinates (base o) /\
     m_saveCoordinatesGlobal b = m_saveCoordinatesGlobal (base o) /\
     m_saveSurfaceID b = m_saveSurfaceID (base o) /\
     m_saveSurfaceSide b = m_saveSurfaceSide (base o) /\
     m_savePhotonsID b = m_savePhotonsID (base o)).
Proof.
  intros D cs o. rewrite calls_base_vtable.
  destruct o as [[] d]; simpl.
  split; [destruct (last_settings cs None); reflexivity|].
  split; [reflexivity|]. split; [reflexivity|]. split; [|split; [|split]].
  - intros ps ->. reflexivity.
  - intros ->. reflexivity.
  - intros ps ->. repeat split; reflexivity.
  - intros ->. repeat split; reflexivity.
Qed.

(** A new object, told its scene model between two settings and asked to
    export: the second settings and the scene model remain. *)
Lemma calls_after_construction :
  calls (PhotonsAbstract_vtable Photon unit)
    [CallSetPhotonSettings (Some settings_local); CallSetSceneModel 7%positive;
     CallStartExport; CallSetPhotonSettings None;
     CallSetPhotonSettings (Some settings_global); CallEndExport]
    (mkObject PhotonsAbstract_ctor tt) =
  mkObject {| m_sceneModel := Some 7%positive;
              m_saveAllPhotonsData := false;
              m_surfaces := [];
              m_saveCoordinates := true;
              m_saveCoordinatesGlobal := true;
              m_saveSurfaceID := false;
              m_saveSurfaceSide := true;
              m_savePhotonsID := true |} tt.
Proof. rewrite calls_base_vtable. reflexivity. Qed.

End PhotonsFurther.

Section PhotonsRecorded.
Import Photons PhotonsCalls.
Context {Photon : Type}.

Lemma call_recorder (c : Call Photon) (r : Object (list (string * string))) :
  call (Recorder_vtable Photon) c r =
  mkObject (base (call (PhotonsAbstract_vtable Photon _) c r))
           (derived r ++ setParameter_calls [c]).
Proof.
  destruct r as [b log].
  destruct c as [| | | | |[ps|]|]; simpl; rewrite ?app_nil_r; try reflexivity.
  unfold setPhotonSettings. rewrite setParameter_loop_recorder, setParameter_loop_base.
  reflexivity.
Qed.

(** X10: every call of [setPhotonSettings] replays all its parameters.  Over
    a run of calls, a class that overrides [setParameter] sees one call for
    every pair of every non-null settings and one for every direct call, in
    the order of the run, with nothing merged or dropped between calls; the
    members of the base class end as they do without the override. *)
Theorem calls_replay_parameters :
  forall (cs : list (Call Photon)) (r : Object (list (string * string))),
    derived (calls (Recorder_vtable Photon) cs r) = derived r ++ setParameter_calls cs /\
    base (calls (Recorder_vtable Photon) cs r) =
    base (calls (PhotonsAbstract_vtable Photon _) cs r).
Proof.
  unfold calls. induction cs as [|c cs IH]; intros r.
  - simpl. rewrite app_nil_r. split; reflexivity.
  - cbn [foldl]. destruct (IH (call (Recorder_vtable Photon) c r)) as [Hlog Hbase].
    rewrite Hlog, Hbase. rewrite call_recorder. cbn [derived base].
    split.
    + rewrite <- app_assoc. f_equal. unfold setParameter_calls. simpl.
      rewrite app_nil_r. reflexivity.
    + fold (calls (PhotonsAbstract_vtable Photon _) cs
              (mkObject (base (call (PhotonsAbstract_vtable Photon _) c r))
                        (derived r ++ setParameter_calls [c]))).
      fold (calls (PhotonsAbstract_vtable Photon _) cs
              (call (PhotonsAbstract_vtable Photon _) c r)).
      rewrite !calls_base_vtable. reflexivity.
Qed.

End PhotonsRecorded.

(* ===================================================================== *)
(** * Further properties: the launcher script *)
(* ===================================================================== *)

Section LauncherFurther.
Import Launcher.

(** The script, given what its two command substitutions yield. *)
Lemma script_steps (sys : System) (sh : Shell) (sd root : string) (s5 s8 : Z) :
  subst_cd_pwd (dirs sys) (cwd sh) (vars sh !! "CDPATH")
    (subst_dirname (dirname_found sys) (BASH_SOURCE0 sh)) = (sd, s5) ->
  subst_cd_pwd (dirs sys) (cwd sh) (vars sh !! "CDPATH") (sd +:+ "/..") = (root, s8) ->
  script sys sh =
  if option_on "errexit" (vars sh) && negb (s5 =? 0)%Z then Exit s5
  else if option_on "errexit" (vars sh) && negb (s8 =? 0)%Z then Exit s8
  else if option_on "nounset" (vars sh) && bool_decide (vars sh !! "LD_LIBRARY_PATH" = None)
  then Exit 1
  else Execve (root +:+ "/bin/TonatiuhXX") ((root +:+ "/bin/TonatiuhXX") :: positional sh)
              (root +:+ "/lib:" +:+ expand (vars sh) "LD_LIBRARY_PATH").
Proof.
  intros H5 H8. unfold script. rewrite H5.
  destruct (option_on "errexit" (vars sh) && negb (s5 =? 0)%Z); [reflexivity|].
  rewrite (expand_insert_eq "SCRIPT_DIR").
  rewrite (lookup_insert_ne (vars sh) "SCRIPT_DIR" "CDPATH") by discriminate.
  rewrite H8.
  destruct (option_on "errexit" (vars sh) && negb (s8 =? 0)%Z); [reflexivity|].
  rewrite (lookup_insert_ne _ "INSTALL_ROOT" "LD_LIBRARY_PATH") by discriminate.
  rewrite (lookup_insert_ne _ "SCRIPT_DIR" "LD_LIBRARY_PATH") by discriminate.
  destruct (option_on "nounset" (vars sh) && bool_decide (vars sh !! "LD_LIBRARY_PATH" = None));
    [reflexivity|].
  rewrite (expand_insert_ne "LD_LIBRARY_PATH" "INSTALL_ROOT") by discriminate.
  rewrite !(expand_insert_eq "INSTALL_ROOT").
  rewrite (expand_insert_eq "LD_LIBRARY_PATH").
  rewrite (expand_insert_ne "INSTALL_ROOT" "LD_LIBRARY_PATH") by discriminate.
  rewrite (expand_insert_ne "SCRIPT_DIR" "LD_LIBRARY_PATH") by discriminate.
  reflexivity.
Qed.






(** X13: an unset [LD_LIBRARY_PATH] leaves a trailing colon, or stops the
    script.  When the session has no such variable and the shell runs
    without [errexit], the binary gets the prefix's [lib] directory followed
    by a colon and nothing, an empty last entry; with [nounset] the script
    never reaches [exec] and exits with status 1. *)
Theorem launcher_unset_library_path :
  forall (sys : System) (sh : Shell),
    described sh = true ->
    vars sh !! "LD_LIBRARY_PATH" = None ->
    option_on "errexit" (vars sh) = false ->
    (option_on "nounset" (vars sh) = true -> launcher sys sh = Some (Exit 1)) /\
    (option_on "nounset" (vars sh) = false ->
     exists root,
       launcher sys sh =
         Some (Execve (root +:+ "/bin/TonatiuhXX")
                      ((root +:+ "/bin/TonatiuhXX") :: positional sh)
                      (root +:+ "/lib:"))).
Proof.
  intros sys sh Hdescribed Hunset Herrexit.
  destruct (subst_cd_pwd (dirs sys) (cwd sh) (vars sh !! "CDPATH")
              (subst_dirname (dirname_found sys) (BASH_SOURCE0 sh))) as [sd s5] eqn:H5.
  destruct (subst_cd_pwd (dirs sys) (cwd sh) (vars sh !! "CDPATH") (sd +:+ "/.."))
    as [root s8] eqn:H8.
  pose proof (script_steps sys sh _ _ _ _ H5 H8) as Hscript.
  unfold launcher. rewrite Hdescribed, Hscript, Herrexit, Hunset. simpl. split.
  - intros ->. reflexivity.
  - intros ->. exists root. unfold expand. rewrite Hunset. simpl. reflexivity.
Qed.

Lemma launcher_unset_library_path_witness :
  exists root,
    launcher installed session_bare =
      Some (Execve (root +:+ "/bin/TonatiuhXX") [root +:+ "/bin/TonatiuhXX"] (root +:+ "/lib:")).
Proof.
  refine (proj2 (launcher_unset_library_path installed session_bare _ _ _) _);
    reflexivity.
Defined.

















(** ** Two lines in [SCRIPT_DIR] *)
















End LauncherFurther.

(* ===================================================================== *)
(** * Further properties: the SoQt smoke test *)
(* ===================================================================== *)

Section SoQtSmokeFurther.
Import SoQtSmoke SoQtSmokeTrace.
Context {World : Type}.
Variable toolkit : forall X, Call X -> World -> option (X * World).

Ltac replay_answers :=
  unfold main; simpl;
  repeat match goal with
         | H : toolkit _ _ _ = _ |- _ => rewrite H; simpl
         end.

(** X15: the viewer lives as long as the main loop runs.  With a main loop
    that never returns, [main] never returns and the viewer is never
    deleted, whatever the other calls answer. *)
Theorem main_keeps_viewer_in_main_loop (w : World) (argv : list string) :
  (forall w', toolkit unit SoQt_mainLoop w' = None) ->
  snd (run toolkit (main argv) w) = None /\
  existsb is_delete_viewer (fst (run toolkit (main argv) w)) = false.
Proof.
  intros Hloop.
  destruct (toolkit _ (SoQt_init (length argv) argv (head argv)) w)
    as [[mainWin w1]|] eqn:E1; [|replay_answers; split; reflexivity].
  destruct (toolkit _ SoDB_init w1) as [[[] w2]|] eqn:E2;
    [|replay_answers; split; reflexivity].
  destruct (toolkit _ SoInteraction_init w2) as [[[] w3]|] eqn:E3;
    [|replay_answers; split; reflexivity].
  destruct (toolkit _ (new_SoQtExaminerViewer mainWin) w3) as [[viewer w4]|] eqn:E4;
    [|replay_answers; split; reflexivity].
  destruct (toolkit _ new_SoCube w4) as [[cube w5]|] eqn:E5;
    [|replay_answers; split; reflexivity].
  destruct (toolkit _ (setSceneGraph viewer (Some cube)) w5) as [[[] w6]|] eqn:E6;
    [|replay_answers; split; reflexivity].
  destruct (toolkit _ (viewer_show viewer) w6) as [[[] w7]|] eqn:E7;
    [|replay_answers; split; reflexivity].
  destruct (toolkit _ (SoQt_show mainWin) w7) as [[[] w8]|] eqn:E8;
    [|replay_answers; split; reflexivity].
  pose proof (Hloop w8) as E9.
  replay_answers. split; reflexivity.
Qed.

End SoQtSmokeFurther.

Section SoQtSmokeFurtherRuns.
Import SoQtSmoke SoQtSmokeTrace.

Lemma main_keeps_viewer_in_main_loop_witness :
  snd (run looping_toolkit (main ["soqt_smoketest"]) 1%positive) = None /\
  existsb is_delete_viewer (fst (run looping_toolkit (main ["soqt_smoketest"]) 1%positive))
    = false.
Proof.
  apply (main_keeps_viewer_in_main_loop looping_toolkit 1%positive ["soqt_smoketest"]).
  intros w'. reflexivity.
Defined.

End SoQtSmokeFurtherRuns.

(* ===================================================================== *)
(** * Further properties: the sky *)
(* ===================================================================== *)

Section SkyFurther.
Import Inventor SkyScene.
Local Open Scope R_scope.

(** What a traversal of the sky node draws, one shape after the other. *)
Lemma traverse_SkyNode3D (st : State) :
  traverse SkyNode3D_ctor st =
  (st,
   let inside := {| origin := vadd (origin st) (mkVec3f 0 0 0);
                    depth_test := false; depth_write := false;
                    light_model := BASE_COLOR |} in
   let at_ (x y : R) := {| origin := vadd (origin inside) (mkVec3f x y 0);
                           depth_test := false; depth_write := false;
                           light_model := BASE_COLOR |} in
   [ DrawSphere (origin inside) kSkyRadius inside;
     DrawText (origin (at_ 0 label_distance)) "North" (at_ 0 label_distance);
     DrawText (origin (at_ label_distance 0)) "East" (at_ label_distance 0);
     DrawText (origin (at_ 0 (- label_distance))) "South" (at_ 0 (- label_distance));
     DrawText (origin (at_ (- label_distance) 0)) "West" (at_ (- label_distance) 0) ]).
Proof. reflexivity. Qed.

Lemma sun_direction_compass :
  SunScene.sun_direction {| Sun.azimuth := 0; Sun.elevation := 0 |} = mkVec3f 0 1 0 /\
  SunScene.sun_direction {| Sun.azimuth := 90; Sun.elevation := 0 |} = mkVec3f 1 0 0 /\
  SunScene.sun_direction {| Sun.azimuth := 180; Sun.elevation := 0 |} = mkVec3f 0 (-1) 0 /\
  SunScene.sun_direction {| Sun.azimuth := 270; Sun.elevation := 0 |} = mkVec3f (-1) 0 0.
Proof.
  unfold SunScene.sun_direction, Sun.gcf_degree; simpl.
  replace (0 * (PI / 180)) with 0 by field.
  replace (90 * (PI / 180)) with (PI / 2) by field.
  replace (180 * (PI / 180)) with PI by field.
  replace (270 * (PI / 180)) with (3 * (PI / 2)) by field.
  rewrite sin_0, cos_0, sin_PI2, cos_PI2, sin_PI, cos_PI, sin_3PI2, cos_3PI2.
  repeat split; f_equal; ring.
Qed.

(** X16: the labels stand where the sun of their name stands.  From
    whatever origin the sky is rendered, it draws the four texts North,
    East, South and West, in this order, each at the label distance from the
    origin in the direction in which a sun node shows a sun on the horizon
    with azimuth 0, 90, 180 and 270 degrees. *)
Theorem sky_labels_at_compass_points :
  forall st : State,
    texts (traverse SkyNode3D_ctor st).2 =
    map (fun '(az, name) =>
           (vadd (origin st)
              (vscale label_distance
                 (SunScene.sun_direction {| Sun.azimuth := az; Sun.elevation := 0 |})),
            name))
        compass_points.
Proof.
  intros st. rewrite traverse_SkyNode3D.
  destruct sun_direction_compass as (HN & HE & HS & HW).
  unfold compass_points; cbn [map]. rewrite HN, HE, HS, HW.
  unfold texts, label_distance, vadd, vscale; simpl.
  repeat (f_equal; try ring).
Qed.

(** X17: the labels lie inside the dome and do not push one another.  The
    sky draws one sphere, of radius [kSkyRadius] about the origin it is
    rendered from, and every text exactly at the label distance from that
    origin, which is less than the radius: no label is moved by the
    translation of another. *)
Theorem sky_labels_inside_dome :
  forall st : State,
    spheres (traverse SkyNode3D_ctor st).2 =
      [(vadd (origin st) (mkVec3f 0 0 0), kSkyRadius)] /\
    Forall (fun '(p, _) =>
              distance2 p (origin st) = label_distance * label_distance /\
              distance2 p (origin st) < kSkyRadius * kSkyRadius)
           (texts (traverse SkyNode3D_ctor st).2).
Proof.
  intros st. rewrite traverse_SkyNode3D. split; [reflexivity|].
  unfold texts, distance2, label_distance, kSkyRadius, vadd; simpl.
  repeat (constructor; [split; simpl; [ring | ring_simplify; lra]|]).
  constructor.
Qed.

(** X18: the sky is a background.  Everything the sky node draws is drawn
    with the depth test and the depth writes off and with the base colour
    light model, whatever the settings it is entered with; and it gives the
    state back as it got it, so that what is drawn after the sky keeps its
    own settings. *)
Theorem sky_is_background :
  forall st : State,
    (traverse SkyNode3D_ctor st).1 = st /\
    length (traverse SkyNode3D_ctor st).2 = 5%nat /\
    Forall (fun d => depth_test (drawn_state d) = false /\
                     depth_write (drawn_state d) = false /\
                     light_model (drawn_state d) = BASE_COLOR)
           (traverse SkyNode3D_ctor st).2.
Proof.
  intros st. rewrite traverse_SkyNode3D. split; [reflexivity|]. split; [reflexivity|].
  simpl. repeat (constructor; [repeat split|]).
  constructor.
Qed.

End SkyFurther.
